(** * pnotify: the process-exec detection engine

    A shallow embedding of the proc-connector codec ([procconn.go]), the
    netlink receive loop ([listenProcExec]) and the orchestrator of
    [ProcessWatcher.run] / [ProcessWatcher.runPolling] (main package).

    Byte buffers are [list byte]; the unsigned fields of the Go structs are
    [Z]; Go's [binary.NativeEndian] is the section variable
    [native_little_endian] (true on little-endian hosts). *)

From Stdlib Require Import ZArith Lia.
From Stdlib Require Import Strings.Byte Strings.Ascii Strings.String.
From stdpp Require Import base list gmap sets strings pretty.

Open Scope Z_scope.

(* ------------------------------------------------------------------ *)
(** ** Constants (procconn.go, lines 14-23) *)

Definition CN_IDX_PROC : Z := 1.
Definition CN_VAL_PROC : Z := 1.
Definition PROC_EVENT_EXEC : Z := 2.
Definition PROC_CN_MCAST_LISTEN : Z := 1.
Definition cnMsgHeaderSize : nat := 20.
Definition procEventMinSize : nat := 24.
(** [syscall.NLMSG_DONE] *)
Definition NLMSG_DONE : Z := 3.

(* ------------------------------------------------------------------ *)
(** ** Fixed-width integers as bytes *)

(** The low byte of an integer, [byte(v)] in Go. *)
Definition byte_of_Z (v : Z) : byte :=
  match Byte.of_N (Z.to_N (v mod 256)) with
  | Some b => b
  | None => x00
  end.

Definition Z_of_byte (b : byte) : Z := Z.of_N (Byte.to_N b).

(** Little-endian value of a byte string. *)
Fixpoint le_val (bs : list byte) : Z :=
  match bs with
  | [] => 0
  | b :: r => Z_of_byte b + 256 * le_val r
  end.

(** Little-endian encoding of [v] on [n] bytes (truncating, as
    [PutUint32] and friends do). *)
Fixpoint le_bytes (n : nat) (v : Z) : list byte :=
  match n with
  | O => []
  | S n' => byte_of_Z v :: le_bytes n' (v / 256)
  end.

(** Go's [int32(u)] on a [uint32] value: two's-complement reinterpretation. *)
Definition int32_of_uint32 (u : Z) : Z :=
  if u <? 2 ^ 31 then u else u - 2 ^ 32.

Section Codec.

(** [binary.NativeEndian] of the host. *)
Variable native_little_endian : bool.

(** [NativeEndian.Uint16/Uint32/Uint64] of a byte string. *)
Definition get_uint (bs : list byte) : Z :=
  if native_little_endian then le_val bs else le_val (rev bs).

(** [NativeEndian.PutUint16/PutUint32/PutUint64] on [n] bytes. *)
Definition put_uint (n : nat) (v : Z) : list byte :=
  if native_little_endian then le_bytes n v else rev (le_bytes n v).

(** The bytes [off .. off+len) of a buffer. *)
Definition field (off len : nat) (bs : list byte) : list byte :=
  take len (drop off bs).

(** [io.ReadFull] on a [bytes.Reader] positioned at the start of [r]:
    [n] bytes and the rest, or an error when fewer than [n] remain. *)
Definition read_full (n : nat) (r : list byte) : option (list byte * list byte) :=
  if Nat.leb n (length r) then Some (take n r, drop n r) else None.

(** [cnMsg] (20 bytes). *)
Record cnMsg := mk_cnMsg {
  Idx : Z; Val : Z; Seq : Z; Ack : Z; Len : Z; Flags : Z
}.

(** [procEvent] (24 bytes). *)
Record procEvent := mk_procEvent {
  What : Z; CPU : Z; Timestamp : Z; ExecPid : Z; ExecTgid : Z
}.

(** [binary.Read(r, binary.NativeEndian, &cn)] *)
Definition read_cnMsg (r : list byte) : option (cnMsg * list byte) :=
  match read_full 20 r with
  | None => None
  | Some (b, rest) =>
      Some (mk_cnMsg (get_uint (field 0 4 b)) (get_uint (field 4 4 b))
                     (get_uint (field 8 4 b)) (get_uint (field 12 4 b))
                     (get_uint (field 16 2 b)) (get_uint (field 18 2 b)), rest)
  end.

(** [binary.Read(r, binary.NativeEndian, &ev)] *)
Definition read_procEvent (r : list byte) : option (procEvent * list byte) :=
  match read_full 24 r with
  | None => None
  | Some (b, rest) =>
      Some (mk_procEvent (get_uint (field 0 4 b)) (get_uint (field 4 4 b))
                         (get_uint (field 8 8 b)) (get_uint (field 16 4 b))
                         (get_uint (field 20 4 b)), rest)
  end.

(** [parseCnProcExec]: [Some pid] is Go's [(pid, true)], [None] is
    [(0, false)]. *)
Definition parseCnProcExec (data : list byte) : option Z :=
  if Nat.ltb (length data) (cnMsgHeaderSize + procEventMinSize) then None
  else
    match read_cnMsg data with
    | None => None
    | Some (cn, r) =>
        if negb (Idx cn =? CN_IDX_PROC) || negb (Val cn =? CN_VAL_PROC) then None
        else
          match read_procEvent r with
          | None => None
          | Some (ev, _) =>
              if negb (What ev =? PROC_EVENT_EXEC) then None
              else Some (int32_of_uint32 (ExecPid ev))
          end
    end.

(** [binary.Write(buf, binary.NativeEndian, cn)] *)
Definition write_cnMsg (cn : cnMsg) : list byte :=
  put_uint 4 (Idx cn) ++ put_uint 4 (Val cn) ++ put_uint 4 (Seq cn) ++
  put_uint 4 (Ack cn) ++ put_uint 2 (Len cn) ++ put_uint 2 (Flags cn).

(** [binary.Write(buf, binary.NativeEndian, ev)] *)
Definition write_procEvent (ev : procEvent) : list byte :=
  put_uint 4 (What ev) ++ put_uint 4 (CPU ev) ++ put_uint 8 (Timestamp ev) ++
  put_uint 4 (ExecPid ev) ++ put_uint 4 (ExecTgid ev).

(** [syscall.NlMsghdr] (16 bytes). *)
Record NlMsghdr := mk_NlMsghdr {
  NlLen : Z; NlType : Z; NlFlags : Z; NlSeq : Z; NlPid : Z
}.

Definition write_NlMsghdr (h : NlMsghdr) : list byte :=
  put_uint 4 (NlLen h) ++ put_uint 2 (NlType h) ++ put_uint 2 (NlFlags h) ++
  put_uint 4 (NlSeq h) ++ put_uint 4 (NlPid h).

(** [binary.Write(payload, binary.NativeEndian, procOp{Op: op})] *)
Definition write_procOp (op : Z) : list byte := put_uint 4 op.

(** The bytes [sendSubscribe fd op] hands to [syscall.Sendto]; [getpid] is
    the value of [syscall.Getpid()]. *)
Definition sendSubscribe_msg (getpid op : Z) : list byte :=
  let payload :=
    write_cnMsg (mk_cnMsg CN_IDX_PROC CN_VAL_PROC 0 0 4 0) ++
    write_procOp op in
  write_NlMsghdr (mk_NlMsghdr (16 + Z.of_nat (length payload)) NLMSG_DONE 0 0
                              getpid) ++ payload.

End Codec.

(** Layout of a connector frame as [parseCnProcExec] reads it: the [cnMsg]
    header at offset 0, the [procEvent] at offset [cnMsgHeaderSize]. *)
Definition frame_Idx (le : bool) (data : list byte) : Z := get_uint le (field 0 4 data).
Definition frame_Val (le : bool) (data : list byte) : Z := get_uint le (field 4 4 data).
Definition frame_What (le : bool) (data : list byte) : Z := get_uint le (field 20 4 data).
Definition frame_ExecPid (le : bool) (data : list byte) : Z := get_uint le (field 36 4 data).

(** Test-side encoder of the round-trip law of the spec (section 8):
    [binary.Write] of a [cnMsg] header followed by a [procEvent], the same
    writer [sendSubscribe] uses for its [cnMsg]. *)
Definition encodeFrame (le : bool) (cn : cnMsg) (ev : procEvent) : list byte :=
  write_cnMsg le cn ++ write_procEvent le ev.

(** Go's [uint32(pid)] on an [int32]. *)
Definition uint32_of_int32 (pid : Z) : Z := pid mod 2 ^ 32.

(* ------------------------------------------------------------------ *)
(** ** The receive loop of [listenProcExec] (procconn.go, lines 128-169) *)

(** [syscall.EINTR] and [syscall.ENOBUFS] on Linux. *)
Definition EINTR : Z := 4.
Definition ENOBUFS : Z := 105.

(** Capacity of [ch := make(chan int32, 64)]. *)
Definition pidChanCap : nat := 64.

(** Outcome of one [syscall.Read(fd, buf)] followed, on success, by
    [syscall.ParseNetlinkMessage(buf[:n])]: the [Data] of each parsed
    message, or [None] when the parse fails. *)
Inductive read_result :=
  | ReadErr (errno : Z)
  | ReadData (msgs : option (list (list byte))).

(** What the goroutine observes at the top of an iteration, or a receive
    by the consumer on [ch] interleaved with the loop. *)
Inductive recv_input :=
  | RCancel                    (** [ctx.Done()] is closed *)
  | RRead (r : read_result)    (** [ctx] live, the read returned [r] *)
  | RConsume.                  (** the consumer took one value from [ch] *)

Inductive recv_log :=
  | LogENOBUFS
  | LogReadError (errno : Z)
  | LogChannelFull (pid : Z).

Record recv_state := mk_recv_state {
  queue : list Z;           (** values buffered in [ch] *)
  logs : list recv_log;     (** lines written by [log.Printf] *)
  fd_open : bool;
  ch_closed : bool;
  finished : bool           (** the goroutine has returned *)
}.

Definition recv_init : recv_state := mk_recv_state [] [] true false false.

Definition add_log (s : recv_state) (l : recv_log) : recv_state :=
  mk_recv_state (queue s) (logs s ++ [l]) (fd_open s) (ch_closed s) (finished s).

(** [return] from the goroutine: the deferred [close(ch)] and
    [syscall.Close(fd)] run. *)
Definition recv_return (s : recv_state) : recv_state :=
  mk_recv_state (queue s) (logs s) false true true.

(** [select { case ch <- pid: default: log.Printf(...) }] *)
Definition recv_send (s : recv_state) (pid : Z) : recv_state :=
  if Nat.ltb (length (queue s)) pidChanCap
  then mk_recv_state (queue s ++ [pid]) (logs s) (fd_open s) (ch_closed s) (finished s)
  else add_log s (LogChannelFull pid).

(** The inner [for _, msg := range msgs] loop. *)
Definition recv_msgs (le : bool) (s : recv_state) (msgs : list (list byte)) : recv_state :=
  fold_left (fun s data =>
    match parseCnProcExec le data with
    | None => s
    | Some pid => recv_send s pid
    end) msgs s.

Definition recv_step (le : bool) (s : recv_state) (i : recv_input) : recv_state :=
  match i with
  | RConsume => mk_recv_state (tail (queue s)) (logs s) (fd_open s) (ch_closed s) (finished s)
  | _ =>
    if finished s then s else
    match i with
    | RCancel => recv_return s
    | RRead (ReadErr e) =>
        if e =? EINTR then s
        else if e =? ENOBUFS then add_log s LogENOBUFS
        else recv_return (add_log s (LogReadError e))
    | RRead (ReadData None) => s
    | RRead (ReadData (Some msgs)) => recv_msgs le s msgs
    | RConsume => s
    end
  end.

Definition recv_loop (le : bool) (s : recv_state) (inputs : list recv_input) : recv_state :=
  fold_left (recv_step le) inputs s.

(* ------------------------------------------------------------------ *)
(** ** Connection set-up of [listenProcExec] (procconn.go, lines 109-126) *)

(** The errors of [syscall.Socket], [syscall.Bind] and [sendSubscribe]
    ([None] on success); the result is the error [listenProcExec]
    returns, if any. A later call is not made once one fails. *)
Definition listen_setup (socket_err bind_err subscribe_err : option Z) : option Z :=
  match socket_err with
  | Some e => Some e
  | None =>
    match bind_err with
    | Some e => Some e
    | None => subscribe_err
    end
  end.

(* ------------------------------------------------------------------ *)
(** ** The orchestrator: [ProcessWatcher.run] and [runPolling]
    (part_000, lines 285-341) *)

Inductive mode :=
  | Starting                     (** before [listenProcExec(ctx)] *)
  | NetlinkActive                (** the [for]/[select] loop of [run] *)
  | PollingStarting              (** [runPolling] entered, baseline pending *)
  | PollingActive (seen : gset Z) (** the ticker loop of [runPolling] *)
  | Stopped.                     (** returned after a signal *)

(** One event the running goroutine observes. *)
Inductive obs :=
  | OConnect (socket_err bind_err subscribe_err : option Z)
  | OPid (p : Z)                 (** [pid, ok := <-pidCh] with [ok] *)
  | OClosed                      (** [<-pidCh] with [!ok] *)
  | OSignal                      (** [s := <-sigCh] *)
  | OSnapshot (s : gset Z).      (** [w.snapshot()] returned [s]; in the
                                     ticker loop, after [<-ticker.C] *)

Inductive action :=
  | AListen                      (** [listenProcExec(ctx)] called *)
  | AStartPolling                (** [w.runPolling(sigCh)] called *)
  | ACheckNew (pids : gset Z)    (** [w.checkNew(pids)] *)
  | AStop.                       (** the signal case returned *)

(** [newPIDs] of one tick of [runPolling]. *)
Definition new_pids (seen current : gset Z) : gset Z :=
  filter (fun pid => pid ∉ seen) current.

Definition step (m : mode) (o : obs) : option (mode * list action) :=
  match m, o with
  | Starting, OConnect se be sube =>
      match listen_setup se be sube with
      | Some _ => Some (PollingStarting, [AListen; AStartPolling])
      | None => Some (NetlinkActive, [AListen])
      end
  | NetlinkActive, OPid p => Some (NetlinkActive, [ACheckNew {[ p ]}])
  | NetlinkActive, OClosed => Some (PollingStarting, [AStartPolling])
  | NetlinkActive, OSignal => Some (Stopped, [AStop])
  | PollingStarting, OSnapshot s => Some (PollingActive s, [])
  | PollingActive seen, OSnapshot current =>
      let n := new_pids seen current in
      Some (PollingActive current,
            if decide (0 < size n)%nat then [ACheckNew n] else [])
  | PollingActive _, OSignal => Some (Stopped, [AStop])
  | _, _ => None
  end.

(** The modes visited and the actions taken, step by step; [None] when an
    event cannot be observed in the mode reached. *)
Fixpoint run_trace (m : mode) (os : list obs) : option (list (mode * list action)) :=
  match os with
  | [] => Some []
  | o :: os' =>
      match step m o with
      | None => None
      | Some (m', a) =>
          match run_trace m' os' with
          | None => None
          | Some tr => Some ((m', a) :: tr)
          end
      end
  end.

(** Identifiers handed to [checkNew] by a list of actions, in order. *)
Fixpoint deliveries (acts : list action) : list Z :=
  match acts with
  | [] => []
  | ACheckNew s :: r => elements s ++ deliveries r
  | _ :: r => deliveries r
  end.

(** The set handed to [checkNew] by one step (empty when none). *)
Fixpoint emitted (acts : list action) : gset Z :=
  match acts with
  | [] => ∅
  | ACheckNew s :: r => s ∪ emitted r
  | _ :: r => emitted r
  end.

Definition is_listen (a : action) : bool :=
  match a with AListen => true | _ => false end.

Definition is_polling (m : mode) : bool :=
  match m with PollingStarting | PollingActive _ => true | _ => false end.

Definition is_netlink (m : mode) : bool :=
  match m with NetlinkActive => true | _ => false end.

(** Spec side of the poller law: after the baseline, each tick reports
    [current ∖ previous]. *)
Fixpoint spec_poll_diffs (prev : gset Z) (ss : list (gset Z)) : list (gset Z) :=
  match ss with
  | [] => []
  | s :: r => (s ∖ prev) :: spec_poll_diffs s r
  end.

(* ------------------------------------------------------------------ *)
(** ** String helpers of the Go standard library used by the watcher *)

Section Strings.
Local Open Scope string_scope.

(** [strings.Join(parts, sep)] *)
Fixpoint join (parts : list string) (sep : string) : string :=
  match parts with
  | [] => ""
  | [p] => p
  | p :: r => p +:+ sep +:+ join r sep
  end.

(** [strings.Contains(s, substr)] *)
Fixpoint contains (s substr : string) : bool :=
  String.prefix substr s ||
  match s with
  | EmptyString => false
  | String _ s' => contains s' substr
  end.

(** [\w] of Go's regexp syntax: [[0-9A-Za-z_]]. *)
Definition is_word_char (c : ascii) : bool :=
  let n := nat_of_ascii c in
  (Nat.leb 48 n && Nat.leb n 57) || (Nat.leb 65 n && Nat.leb n 90) ||
  (Nat.leb 97 n && Nat.leb n 122) || Nat.eqb n 95.

Fixpoint string_forallb (f : ascii -> bool) (s : string) : bool :=
  match s with
  | EmptyString => true
  | String c r => f c && string_forallb f r
  end.

(** The replacement function passed to [ReplaceAllStringFunc] in
    [formatTemplate], applied to a match ["{" ++ w ++ "}"]. *)
Definition tmpl_repl (ctx : gmap string string) (w : string) : string :=
  match ctx !! w with
  | Some v => v
  | None => "{" +:+ w +:+ "}"
  end.

(** [tmplVar.ReplaceAllStringFunc(tmpl, ...)] with
    [tmplVar = regexp.MustCompile(`\{(\w+)\}`)]: a left-to-right scan
    for the leftmost non-overlapping matches. [pending = Some w] means a
    ["{"] followed by the word characters [w] has been read and not yet
    decided; replacement text is not scanned again. *)
Fixpoint tmpl_scan (ctx : gmap string string) (s : string) (pending : option string)
    : string :=
  match s with
  | EmptyString =>
      match pending with None => "" | Some w => "{" +:+ w end
  | String c r =>
      match pending with
      | None =>
          if Ascii.eqb c "{" then tmpl_scan ctx r (Some "")
          else String c (tmpl_scan ctx r None)
      | Some w =>
          if is_word_char c then tmpl_scan ctx r (Some (w +:+ String c ""))
          else if Ascii.eqb c "}" && negb (String.eqb w "")
          then tmpl_repl ctx w +:+ tmpl_scan ctx r None
          else if Ascii.eqb c "{" then ("{" +:+ w) +:+ tmpl_scan ctx r (Some "")
          else ("{" +:+ w) +:+ String c (tmpl_scan ctx r None)
      end
  end.

(** [formatTemplate] (part_000, lines 100-110) *)
Definition formatTemplate (tmpl : string) (ctx : gmap string string) : string :=
  tmpl_scan ctx tmpl None.

(** The text a scan in state [pending] has read and not yet written. *)
Definition tmpl_pending_text (pending : option string) : string :=
  match pending with None => "" | Some w => "{" +:+ w end.

(** The urgency hint of [sendNotification] (part_000, lines 157-161):
    [urgencyMap[urgency]], 1 when the key is absent. *)
Definition urgency_hint (urgency : string) : Z :=
  if String.eqb urgency "low" then 0
  else if String.eqb urgency "normal" then 1
  else if String.eqb urgency "critical" then 2
  else 1.

End Strings.

(* ------------------------------------------------------------------ *)
(** ** Criteria (part_000, lines 40-146) *)

(** The JSON structures. *)
Record criterionMatch := mk_criterionMatch {
  NameRegex : string; CmdlineContains : list string; Username : string
}.

Record criterionRaw := mk_criterionRaw {
  RawName : string; RawMatch : criterionMatch;
  NotifyTitle : string; NotifyBody : string; Urgency : string
}.

(** What the watcher reads of a live process: [proc.Name()] ([None] when
    it fails), and the values [proc.CmdlineSlice()] and [proc.Username()]
    return (their errors are discarded by the code). *)
Record procInfo := mk_procInfo {
  procName : option string; procCmdline : list string; procUsername : string
}.

(** A desktop notification: the arguments of [sendNotification]. *)
Record notification := mk_notification {
  notifTitle : string; notifBody : string; notifUrgency : string
}.

Section Criteria.
Local Open Scope string_scope.

(** Go's [regexp] package: compiled expressions, [regexp.Compile] ([None]
    on a syntax error) and [MatchString]. *)
Variable regex : Type.
Variable compile : string -> option regex.
Variable match_string : regex -> string -> bool.

Record Criterion := mk_Criterion {
  Name : string; nameRegex : option regex; cmdlineContains : list string;
  username : string; notifyTitle : string; notifyBody : string; urgency : string
}.

(** The body of the loop of [buildCriteria] for one entry; an error
    carries the name of the criterion (the [%q] of the message). *)
Definition buildCriterion (r : criterionRaw) : string + Criterion :=
  let urg := if String.eqb (Urgency r) "" then "normal" else Urgency r in
  let title := if String.eqb (NotifyTitle r) "" then "New process" else NotifyTitle r in
  let body := if String.eqb (NotifyBody r) "" then "PID {pid}: {name}" else NotifyBody r in
  let c := mk_Criterion (RawName r) None (CmdlineContains (RawMatch r))
                        (Username (RawMatch r)) title body urg in
  if negb (String.eqb (NameRegex (RawMatch r)) "") then
    match compile ("(?i)" +:+ NameRegex (RawMatch r)) with
    | None => inl (RawName r)
    | Some re => inr (mk_Criterion (Name c) (Some re) (cmdlineContains c) (username c)
                                   (notifyTitle c) (notifyBody c) (urgency c))
    end
  else inr c.

(** [buildCriteria]: the first invalid entry aborts the whole list. *)
Fixpoint buildCriteria (raw : list criterionRaw) : string + list Criterion :=
  match raw with
  | [] => inr []
  | r :: rest =>
      match buildCriterion r with
      | inl e => inl e
      | inr c =>
          match buildCriteria rest with
          | inl e => inl e
          | inr cs => inr (c :: cs)
          end
      end
  end.

(** An entry [buildCriteria] accepts: no name regex, or one that
    compiles once prefixed with ["(?i)"]. *)
Definition regex_ok (r : criterionRaw) : Prop :=
  NameRegex (RawMatch r) = "" \/ compile ("(?i)" +:+ NameRegex (RawMatch r)) <> None.

(** [Criterion.matches] *)
Definition matches (c : Criterion) (p : procInfo) : bool :=
  match procName p with
  | None => false
  | Some name =>
      let cmdline := join (procCmdline p) " " in
      match nameRegex c with
      | Some re => match_string re name
      | None => true
      end &&
      forallb (fun term => contains cmdline term) (cmdlineContains c) &&
      (String.eqb (username c) "" || String.eqb (procUsername p) (username c))
  end.

(** [Criterion.formatNotification] for the process [pid]. *)
Definition formatNotification (c : Criterion) (pid : Z) (p : procInfo) : string * string :=
  let name := match procName p with Some n => n | None => "" end in
  let ctx : gmap string string :=
    <["name" := name]> (<["pid" := pretty pid]>
      (<["cmdline" := join (procCmdline p) " "]> (<["username" := procUsername p]> ∅))) in
  (formatTemplate (notifyTitle c) ctx, formatTemplate (notifyBody c) ctx).

(** The inner loop of [checkNew] for one process. *)
Definition notify_process (criteria : list Criterion) (pid : Z) (p : procInfo)
    : list notification :=
  flat_map (fun c =>
    if matches c p
    then let tb := formatNotification c pid p in
         [mk_notification (fst tb) (snd tb) (urgency c)]
    else []) criteria.

(** [ProcessWatcher.checkNew]: the notifications sent, [proc pid]
    being [process.NewProcess(pid)] ([None] once the process is gone).
    Go's map iteration order is unspecified; [elements] fixes one. *)
Definition checkNew (criteria : list Criterion) (proc : Z -> option procInfo)
    (newPIDs : gset Z) : list notification :=
  flat_map (fun pid =>
    match proc pid with
    | None => []
    | Some p => notify_process criteria pid p
    end) (elements newPIDs).

(** [json.Unmarshal] into [[]criterionRaw]. *)
Variable unmarshal : string -> option (list criterionRaw).

(** [ProcessWatcher.reloadConfig]: the criteria after a reload, given
    what [os.ReadFile] returned ([None] on error). *)
Definition reloadConfig (old : list Criterion) (file : option string) : list Criterion :=
  match file with
  | None => old
  | Some data =>
      match unmarshal data with
      | None => old
      | Some raw =>
          match buildCriteria raw with
          | inl _ => old
          | inr criteria => criteria
          end
      end
  end.

End Criteria.

Definition count_acts (f : action -> bool) (tr : list (mode * list action)) : nat :=
  length (filter (fun a => f a = true) (concat (map snd tr))).

Definition is_start_polling (a : action) : bool :=
  match a with AStartPolling => true | _ => false end.

(* ================================================================== *)
(** * Facts about the byte encoding *)

Lemma Z_of_byte_bound (b : byte) : 0 <= Z_of_byte b < 256.
Proof.
  unfold Z_of_byte. pose proof (Byte.to_N_bounded b). lia.
Qed.

Lemma Z_of_byte_of_Z (v : Z) : Z_of_byte (byte_of_Z v) = v mod 256.
Proof.
  unfold byte_of_Z, Z_of_byte.
  pose proof (Z.mod_pos_bound v 256 ltac:(lia)) as Hb.
  destruct (Byte.of_N (Z.to_N (v mod 256))) eqn:E.
  - apply Byte.to_of_N in E. rewrite E. lia.
  - apply Byte.of_N_None_iff in E. lia.
Qed.

Lemma length_le_bytes (n : nat) (v : Z) : length (le_bytes n v) = n.
Proof. revert v; induction n; intros v; simpl; auto. Qed.

Lemma le_val_le_bytes (n : nat) (v : Z) :
  le_val (le_bytes n v) = v mod 2 ^ (8 * Z.of_nat n).
Proof.
  revert v; induction n as [|n IH]; intros v.
  - simpl. rewrite Z.mod_1_r. reflexivity.
  - cbn [le_bytes le_val]. rewrite IH, Z_of_byte_of_Z.
    replace (8 * Z.of_nat (S n)) with (8 + 8 * Z.of_nat n) by lia.
    rewrite Z.pow_add_r by lia.
    rewrite (Z.rem_mul_r v (2 ^ 8) (2 ^ (8 * Z.of_nat n))) by lia.
    reflexivity.
Qed.

Lemma le_val_bound (bs : list byte) :
  0 <= le_val bs < 2 ^ (8 * Z.of_nat (length bs)).
Proof.
  induction bs as [|b bs IH]; simpl.
  - lia.
  - pose proof (Z_of_byte_bound b).
    replace (8 * Z.of_nat (S (length bs))) with (8 + 8 * Z.of_nat (length bs)) by lia.
    rewrite Z.pow_add_r by lia. lia.
Qed.

Section CodecFacts.

Variable le : bool.

Lemma length_put_uint (n : nat) (v : Z) : length (put_uint le n v) = n.
Proof.
  unfold put_uint; destruct le; rewrite ?length_rev; apply length_le_bytes.
Qed.

Lemma get_put_uint (n : nat) (v : Z) :
  get_uint le (put_uint le n v) = v mod 2 ^ (8 * Z.of_nat n).
Proof.
  unfold get_uint, put_uint; destruct le;
    rewrite ?rev_involutive; apply le_val_le_bytes.
Qed.

Lemma get_uint_bound (bs : list byte) :
  0 <= get_uint le bs < 2 ^ (8 * Z.of_nat (length bs)).
Proof.
  unfold get_uint; destruct le.
  - apply le_val_bound.
  - rewrite <- (length_rev bs). apply le_val_bound.
Qed.

End CodecFacts.

Lemma field_take (off len m : nat) (l : list byte) :
  (off + len <= m)%nat -> field off len (take m l) = field off len l.
Proof.
  intros H. unfold field.
  rewrite skipn_firstn_comm, firstn_firstn.
  f_equal. lia.
Qed.

Lemma field_drop (off len k : nat) (l : list byte) :
  field off len (drop k l) = field (k + off) len l.
Proof.
  unfold field. rewrite skipn_skipn. f_equal. f_equal. lia.
Qed.

Lemma field_app_l (off len : nat) (l1 l2 : list byte) :
  (off + len <= length l1)%nat -> field off len (l1 ++ l2) = field off len l1.
Proof.
  intros H. unfold field.
  rewrite skipn_app, firstn_app, length_skipn.
  replace (len - (length l1 - off))%nat with O by lia.
  simpl. apply app_nil_r.
Qed.

Lemma field_app_r (off len : nat) (l1 l2 : list byte) :
  (length l1 <= off)%nat -> field off len (l1 ++ l2) = field (off - length l1) len l2.
Proof.
  intros H. unfold field.
  rewrite skipn_app, skipn_all2 by lia. reflexivity.
Qed.

Lemma field_all (n : nat) (l : list byte) : length l = n -> field 0 n l = l.
Proof.
  intros H. unfold field. simpl. apply firstn_all2. lia.
Qed.

(** [parseCnProcExec] as a function of the header fields it inspects. *)
Lemma parseCnProcExec_fields (le : bool) (data : list byte) :
  parseCnProcExec le data =
  if Nat.ltb (length data) 44 then None
  else if (frame_Idx le data =? CN_IDX_PROC) && (frame_Val le data =? CN_VAL_PROC)
          && (frame_What le data =? PROC_EVENT_EXEC)
       then Some (int32_of_uint32 (frame_ExecPid le data))
       else None.
Proof.
  unfold parseCnProcExec, cnMsgHeaderSize, procEventMinSize. simpl (20 + 24)%nat.
  destruct (Nat.ltb_spec (length data) 44) as [Hlt|Hge]; [reflexivity|].
  unfold read_cnMsg, read_full at 1.
  destruct (Nat.leb_spec 20 (length data)) as [_|]; [|lia]. cbn iota beta.
  unfold read_procEvent, read_full.
  rewrite length_skipn.
  destruct (Nat.leb_spec 24 (length data - 20)) as [_|]; [|lia]. cbn iota beta.
  cbn [Idx Val What ExecPid].
  unfold frame_Idx, frame_Val, frame_What, frame_ExecPid.
  rewrite !field_take by lia.
  rewrite !(field_drop _ _ 20). simpl (20 + _)%nat.
  destruct (get_uint le (field 0 4 data) =? CN_IDX_PROC);
  destruct (get_uint le (field 4 4 data) =? CN_VAL_PROC); simpl; try reflexivity.
  destruct (get_uint le (field 20 4 data) =? PROC_EVENT_EXEC); reflexivity.
Qed.

Ltac len_tac := rewrite ?length_app, ?length_put_uint; cbn [Nat.add Nat.sub]; lia.

Ltac field_simp :=
  repeat (first [ rewrite field_app_l by len_tac
                | rewrite field_app_r by len_tac ];
          rewrite ?length_app, ?length_put_uint; cbn [Nat.add Nat.sub]);
  rewrite field_all by apply length_put_uint.

Lemma length_write_cnMsg (le : bool) (cn : cnMsg) : length (write_cnMsg le cn) = 20%nat.
Proof. unfold write_cnMsg. len_tac. Qed.

Lemma length_write_procEvent (le : bool) (ev : procEvent) :
  length (write_procEvent le ev) = 24%nat.
Proof. unfold write_procEvent. len_tac. Qed.

Lemma encodeFrame_fields (le : bool) (cn : cnMsg) (ev : procEvent) :
  length (encodeFrame le cn ev) = 44%nat /\
  frame_Idx le (encodeFrame le cn ev) = Idx cn mod 2 ^ 32 /\
  frame_Val le (encodeFrame le cn ev) = Val cn mod 2 ^ 32 /\
  frame_What le (encodeFrame le cn ev) = What ev mod 2 ^ 32 /\
  frame_ExecPid le (encodeFrame le cn ev) = ExecPid ev mod 2 ^ 32.
Proof.
  unfold encodeFrame, frame_Idx, frame_Val, frame_What, frame_ExecPid.
  repeat split.
  - rewrite length_app, length_write_cnMsg, length_write_procEvent. reflexivity.
  - rewrite field_app_l by (rewrite length_write_cnMsg; lia).
    unfold write_cnMsg. field_simp. apply get_put_uint.
  - rewrite field_app_l by (rewrite length_write_cnMsg; lia).
    unfold write_cnMsg. field_simp. apply get_put_uint.
  - rewrite field_app_r by (rewrite length_write_cnMsg; lia).
    rewrite length_write_cnMsg. cbn [Nat.sub].
    unfold write_procEvent. field_simp. apply get_put_uint.
  - rewrite field_app_r by (rewrite length_write_cnMsg; lia).
    rewrite length_write_cnMsg. cbn [Nat.sub].
    unfold write_procEvent. field_simp. apply get_put_uint.
Qed.

Lemma int32_of_uint32_of_int32 (pid : Z) :
  - 2 ^ 31 <= pid < 2 ^ 31 -> int32_of_uint32 (uint32_of_int32 pid) = pid.
Proof.
  intros H. unfold int32_of_uint32, uint32_of_int32.
  destruct (Z_le_gt_dec 0 pid) as [Hp|Hn].
  - rewrite Z.mod_small by lia.
    destruct (Z.ltb_spec pid (2 ^ 31)); lia.
  - replace (pid mod 2 ^ 32) with (pid + 2 ^ 32).
    + destruct (Z.ltb_spec (pid + 2 ^ 32) (2 ^ 31)); lia.
    + apply Z.mod_unique with (-1); lia.
Qed.

Lemma field_field (a b off len : nat) (l : list byte) :
  (off <= a)%nat -> (a + b <= off + len)%nat ->
  field a b l = field (a - off) b (field off len l).
Proof.
  intros H1 H2. unfold field.
  rewrite skipn_firstn_comm, firstn_firstn, skipn_skipn.
  f_equal; [lia|]. f_equal. lia.
Qed.

Lemma length_write_NlMsghdr (le : bool) (h : NlMsghdr) :
  length (write_NlMsghdr le h) = 16%nat.
Proof. unfold write_NlMsghdr. len_tac. Qed.

Lemma length_write_procOp (le : bool) (op : Z) : length (write_procOp le op) = 4%nat.
Proof. apply length_put_uint. Qed.

(* ================================================================== *)
(** * The codec *)

(** C2: round trip. A frame written with the process-connector index and
    value (1, 1) and the exec tag, whose [ExecPid] is [uint32(pid)] for a
    pid in the [int32] range, decodes to [Some pid]; the other header
    fields are arbitrary. *)
Theorem parseCnProcExec_encodeFrame (le : bool) (cn : cnMsg) (ev : procEvent) (pid : Z)
  (Hidx : Idx cn = CN_IDX_PROC) (Hval : Val cn = CN_VAL_PROC)
  (Hwhat : What ev = PROC_EVENT_EXEC) (Hpid : ExecPid ev = uint32_of_int32 pid)
  (Hrange : - 2 ^ 31 <= pid < 2 ^ 31) :
  parseCnProcExec le (encodeFrame le cn ev) = Some pid.
Proof.
  rewrite parseCnProcExec_fields.
  destruct (encodeFrame_fields le cn ev) as (Hlen & Hi & Hv & Hw & Hp).
  rewrite Hlen, Hi, Hv, Hw, Hp, Hidx, Hval, Hwhat, Hpid. simpl.
  f_equal. unfold uint32_of_int32. rewrite Zmod_mod.
  apply int32_of_uint32_of_int32. exact Hrange.
Qed.

Lemma parseCnProcExec_encodeFrame_witness :
  parseCnProcExec true
    (encodeFrame true (mk_cnMsg 1 1 0 0 24 0) (mk_procEvent 2 0 0 (uint32_of_int32 4242) 4242))
  = Some 4242.
Proof.
  apply (parseCnProcExec_encodeFrame true (mk_cnMsg 1 1 0 0 24 0)
           (mk_procEvent 2 0 0 (uint32_of_int32 4242) 4242) 4242);
    try reflexivity; lia.
Defined.

(** C4: totality. The decoder only looks at the first 44 bytes of its
    input; a buffer shorter than 44 bytes gives "no event"; from 44 bytes
    on, both [binary.Read] calls find the bytes they need, so no short read
    happens. *)
Theorem parseCnProcExec_total (le : bool) (data : list byte) :
  parseCnProcExec le data = parseCnProcExec le (take 44 data) /\
  ((length data < 44)%nat -> parseCnProcExec le data = None) /\
  ((44 <= length data)%nat ->
   exists cn r ev r', read_cnMsg le data = Some (cn, r) /\
                      read_procEvent le r = Some (ev, r')).
Proof.
  split; [|split].
  - rewrite !parseCnProcExec_fields.
    destruct (Nat.ltb_spec (length data) 44) as [Hlt|Hge].
    + rewrite take_ge by lia. apply Nat.ltb_lt in Hlt. rewrite Hlt. reflexivity.
    + rewrite length_firstn, Nat.min_l by lia. simpl Nat.ltb.
      unfold frame_Idx, frame_Val, frame_What, frame_ExecPid.
      rewrite !field_take by lia. reflexivity.
  - intros H. rewrite parseCnProcExec_fields.
    apply Nat.ltb_lt in H. rewrite H. reflexivity.
  - intros H. unfold read_cnMsg, read_full.
    destruct (Nat.leb_spec 20 (length data)) as [_|]; [|lia].
    do 4 eexists. split; [reflexivity|].
    unfold read_procEvent, read_full. rewrite length_skipn.
    destruct (Nat.leb_spec 24 (length data - 20)) as [_|]; [|lia].
    reflexivity.
Qed.

Lemma parseCnProcExec_total_witness :
  parseCnProcExec true [x01; x00; x00; x00] = None.
Proof.
  apply (proj1 (proj2 (parseCnProcExec_total true [x01; x00; x00; x00]))).
  simpl. lia.
Defined.

(** C5: fail closed. A connector index or value other than (1, 1), or an
    event tag other than exec, gives "no event" whatever the rest of the
    frame; a pid comes back exactly when the length, index/value and tag
    checks all pass. *)
Theorem parseCnProcExec_fails_closed (le : bool) (data : list byte) :
  ((frame_Idx le data <> CN_IDX_PROC \/ frame_Val le data <> CN_VAL_PROC \/
    frame_What le data <> PROC_EVENT_EXEC) -> parseCnProcExec le data = None) /\
  (forall p, parseCnProcExec le data = Some p <->
     (44 <= length data)%nat /\ frame_Idx le data = CN_IDX_PROC /\
     frame_Val le data = CN_VAL_PROC /\ frame_What le data = PROC_EVENT_EXEC /\
     p = int32_of_uint32 (frame_ExecPid le data)).
Proof.
  rewrite parseCnProcExec_fields. split.
  - intros H. destruct (_ <? _)%nat; [reflexivity|].
    destruct (Z.eqb_spec (frame_Idx le data) CN_IDX_PROC);
    destruct (Z.eqb_spec (frame_Val le data) CN_VAL_PROC);
    destruct (Z.eqb_spec (frame_What le data) PROC_EVENT_EXEC);
      simpl; try reflexivity.
    exfalso. intuition.
  - intros p.
    destruct (Nat.ltb_spec (length data) 44).
    + split; [discriminate | lia].
    + destruct (Z.eqb_spec (frame_Idx le data) CN_IDX_PROC);
      destruct (Z.eqb_spec (frame_Val le data) CN_VAL_PROC);
      destruct (Z.eqb_spec (frame_What le data) PROC_EVENT_EXEC);
        simpl; split; intros; try discriminate; intuition congruence.
Qed.

Lemma parseCnProcExec_fails_closed_witness :
  parseCnProcExec true
    (encodeFrame true (mk_cnMsg 1 1 0 0 24 0) (mk_procEvent 1 0 0 4242 4242)) = None.
Proof.
  apply (proj1 (parseCnProcExec_fails_closed true
    (encodeFrame true (mk_cnMsg 1 1 0 0 24 0) (mk_procEvent 1 0 0 4242 4242)))).
  right. right. vm_compute. discriminate.
Defined.

(** C10: on a buffer of at least 44 bytes with index 1, value 1 and the
    exec tag, the result is [int32(ExecPid)]; the [Len] and [Flags] words
    (bytes 16..20) and every byte after the 44th play no part, and the
    result is 0 for [ExecPid = 0] and negative for [ExecPid >= 2^31]. *)
Theorem parseCnProcExec_exec_pid (le : bool) (data : list byte)
  (Hlen : (44 <= length data)%nat) (Hidx : frame_Idx le data = CN_IDX_PROC)
  (Hval : frame_Val le data = CN_VAL_PROC) (Hwhat : frame_What le data = PROC_EVENT_EXEC) :
  parseCnProcExec le data = Some (int32_of_uint32 (frame_ExecPid le data)) /\
  (forall data', (44 <= length data')%nat ->
     field 0 16 data' = field 0 16 data -> field 20 24 data' = field 20 24 data ->
     parseCnProcExec le data' = parseCnProcExec le data) /\
  (frame_ExecPid le data = 0 -> int32_of_uint32 (frame_ExecPid le data) = 0) /\
  (2 ^ 31 <= frame_ExecPid le data -> int32_of_uint32 (frame_ExecPid le data) < 0).
Proof.
  assert (Hres : parseCnProcExec le data = Some (int32_of_uint32 (frame_ExecPid le data))).
  { rewrite parseCnProcExec_fields, Hidx, Hval, Hwhat.
    destruct (Nat.ltb_spec (length data) 44); [lia|]. reflexivity. }
  split; [exact Hres|split; [|split]].
  - intros data' Hlen' H16 H24.
    rewrite Hres, parseCnProcExec_fields.
    destruct (Nat.ltb_spec (length data') 44); [lia|].
    unfold frame_Idx, frame_Val, frame_What, frame_ExecPid in *.
    rewrite (field_field 0 4 0 16 data'), (field_field 4 4 0 16 data'),
      (field_field 20 4 20 24 data'), (field_field 36 4 20 24 data') by lia.
    rewrite H16, H24, <- !field_field by lia.
    rewrite Hidx, Hval, Hwhat. reflexivity.
  - intros H0. rewrite H0. reflexivity.
  - intros Hbig. unfold int32_of_uint32.
    pose proof (get_uint_bound le (field 36 4 data)) as Hb.
    unfold frame_ExecPid in *.
    assert (Hl : length (field 36 4 data) = 4%nat)
      by (unfold field; rewrite length_firstn, length_skipn; lia).
    rewrite Hl in Hb.
    destruct (Z.ltb_spec (get_uint le (field 36 4 data)) (2 ^ 31)); simpl in Hb; lia.
Qed.

Lemma parseCnProcExec_exec_pid_witness :
  parseCnProcExec true
    (encodeFrame true (mk_cnMsg 1 1 0 0 999 0) (mk_procEvent 2 0 0 4294967295 0)) = Some (-1).
Proof.
  apply (proj1 (parseCnProcExec_exec_pid true
    (encodeFrame true (mk_cnMsg 1 1 0 0 999 0) (mk_procEvent 2 0 0 4294967295 0))
    ltac:(vm_compute; lia) ltac:(reflexivity) ltac:(reflexivity) ltac:(reflexivity))).
Defined.

(** C9: the subscribe message is 40 bytes: a 16-byte [NlMsghdr] whose
    length word is 40, the 20-byte [cnMsg] with index 1, value 1 and
    payload length 4, and the 4-byte operation code, all written in the
    host's byte order. *)
Theorem sendSubscribe_layout (le : bool) (getpid op : Z) :
  sendSubscribe_msg le getpid op =
    write_NlMsghdr le (mk_NlMsghdr 40 NLMSG_DONE 0 0 getpid) ++
    write_cnMsg le (mk_cnMsg CN_IDX_PROC CN_VAL_PROC 0 0 4 0) ++
    write_procOp le op /\
  length (sendSubscribe_msg le getpid op) = 40%nat /\
  get_uint le (field 0 4 (sendSubscribe_msg le getpid op)) = 40 /\
  get_uint le (field 16 4 (sendSubscribe_msg le getpid op)) = CN_IDX_PROC /\
  get_uint le (field 20 4 (sendSubscribe_msg le getpid op)) = CN_VAL_PROC /\
  get_uint le (field 32 2 (sendSubscribe_msg le getpid op)) = 4 /\
  field 36 4 (sendSubscribe_msg le getpid op) = put_uint le 4 op.
Proof.
  assert (Hm : sendSubscribe_msg le getpid op =
    write_NlMsghdr le (mk_NlMsghdr 40 NLMSG_DONE 0 0 getpid) ++
    write_cnMsg le (mk_cnMsg CN_IDX_PROC CN_VAL_PROC 0 0 4 0) ++
    write_procOp le op).
  { unfold sendSubscribe_msg. cbv zeta.
    rewrite length_app, length_write_cnMsg, length_write_procOp. reflexivity. }
  rewrite Hm. split; [reflexivity|].
  unfold write_NlMsghdr, write_cnMsg, write_procOp. cbn [NlLen NlType NlFlags NlSeq NlPid
    Idx Val Seq Ack Len Flags].
  rewrite <- !app_assoc.
  repeat split.
  - len_tac.
  - field_simp. rewrite get_put_uint. reflexivity.
  - field_simp. rewrite get_put_uint. reflexivity.
  - field_simp. rewrite get_put_uint. reflexivity.
  - field_simp. rewrite get_put_uint. reflexivity.
  - field_simp. reflexivity.
Qed.

(* ================================================================== *)
(** * The receive loop *)

Lemma recv_loop_cons (le : bool) (s : recv_state) (i : recv_input) (rest : list recv_input) :
  recv_loop le s (i :: rest) = recv_loop le (recv_step le s i) rest.
Proof. reflexivity. Qed.

(** Once the goroutine has returned, only the consumer's receives change
    anything: the channel stays closed, the socket closed, no line is
    logged and no value is added. *)
Lemma recv_loop_finished (le : bool) (rest : list recv_input) (s : recv_state) :
  finished s = true ->
  finished (recv_loop le s rest) = true /\
  ch_closed (recv_loop le s rest) = ch_closed s /\
  fd_open (recv_loop le s rest) = fd_open s /\
  logs (recv_loop le s rest) = logs s /\
  queue (recv_loop le s rest) `suffix_of` queue s.
Proof.
  revert s; induction rest as [|i rest IH]; intros s Hf.
  - simpl. repeat split; auto.
  - rewrite recv_loop_cons.
    destruct i as [| r |]; simpl recv_step; rewrite ?Hf.
    + apply IH; exact Hf.
    + apply IH; exact Hf.
    + destruct s as [q l fo cc fi]; simpl in Hf; subst fi.
      destruct (IH (mk_recv_state (tail q) l fo cc true) eq_refl) as (H1 & H2 & H3 & H4 & H5).
      simpl in *. split; [exact H1|split; [exact H2|split; [exact H3|split; [exact H4|]]]].
      etrans; [exact H5|]. destruct q; simpl; [reflexivity|].
      apply suffix_cons_r. reflexivity.
Qed.

(** C6: the three classes of read failure. [EINTR] is retried with the
    state untouched; [ENOBUFS] adds one log line and the loop goes on; any
    other errno is logged and ends the goroutine, whose deferred calls
    close [ch] and the socket, after which nothing more is sent. *)
Theorem recv_loop_read_errors (le : bool) (s : recv_state) (rest : list recv_input)
  (Hrun : finished s = false) :
  recv_loop le s (RRead (ReadErr EINTR) :: rest) = recv_loop le s rest /\
  recv_loop le s (RRead (ReadErr ENOBUFS) :: rest) =
    recv_loop le (add_log s LogENOBUFS) rest /\
  finished (add_log s LogENOBUFS) = false /\
  queue (add_log s LogENOBUFS) = queue s /\
  logs (add_log s LogENOBUFS) = logs s ++ [LogENOBUFS] /\
  (forall e, e <> EINTR -> e <> ENOBUFS ->
    let s' := recv_step le s (RRead (ReadErr e)) in
    finished s' = true /\ fd_open s' = false /\ ch_closed s' = true /\
    logs s' = logs s ++ [LogReadError e] /\ queue s' = queue s /\
    let s'' := recv_loop le s' rest in
    ch_closed s'' = true /\ fd_open s'' = false /\ logs s'' = logs s' /\
    queue s'' `suffix_of` queue s').
Proof.
  split; [|split; [|split; [|split; [|split]]]].
  - rewrite recv_loop_cons. simpl recv_step. rewrite Hrun. reflexivity.
  - rewrite recv_loop_cons. simpl recv_step. rewrite Hrun. reflexivity.
  - exact Hrun.
  - reflexivity.
  - reflexivity.
  - intros e He1 He2. cbv zeta.
    assert (Hs : recv_step le s (RRead (ReadErr e)) =
                 recv_return (add_log s (LogReadError e))).
    { simpl. rewrite Hrun.
      destruct (Z.eqb_spec e EINTR); [congruence|].
      destruct (Z.eqb_spec e ENOBUFS); [congruence|]. reflexivity. }
    rewrite Hs.
    destruct (recv_loop_finished le rest (recv_return (add_log s (LogReadError e))) eq_refl)
      as (_ & H2 & H3 & H4 & H5).
    rewrite H2, H3, H4. simpl. repeat split; auto.
Qed.

Lemma recv_loop_read_errors_witness :
  recv_step true recv_init (RRead (ReadErr 9)) = mk_recv_state [] [LogReadError 9] false true true.
Proof.
  destruct (recv_loop_read_errors true recv_init [] eq_refl) as (_ & _ & _ & _ & _ & H).
  destruct (H 9 ltac:(discriminate) ltac:(discriminate)) as (H1 & H2 & H3 & H4 & H5 & _).
  destruct (recv_step true recv_init (RRead (ReadErr 9))) as [q l fo cc fi].
  simpl in *. subst. reflexivity.
Defined.

(* ================================================================== *)
(** * The orchestrator *)

Lemma run_trace_cons (m : mode) (o : obs) (os : list obs) :
  run_trace m (o :: os) =
  match step m o with
  | None => None
  | Some (m', a) =>
      match run_trace m' os with
      | None => None
      | Some tr => Some ((m', a) :: tr)
      end
  end.
Proof. reflexivity. Qed.

Lemma new_pids_diff (seen current : gset Z) : new_pids seen current = current ∖ seen.
Proof. unfold new_pids. set_solver. Qed.

Lemma emitted_app (a1 a2 : list action) : emitted (a1 ++ a2) = emitted a1 ∪ emitted a2.
Proof. induction a1 as [|[] a1 IH]; simpl; rewrite ?IH; set_solver. Qed.

Lemma step_tick (seen current : gset Z) :
  exists a, step (PollingActive seen) (OSnapshot current) = Some (PollingActive current, a) /\
            emitted a = current ∖ seen.
Proof.
  simpl. eexists. split; [reflexivity|].
  rewrite new_pids_diff.
  destruct (decide (0 < size (current ∖ seen))%nat) as [Hs|Hs]; simpl.
  - set_solver.
  - assert (Hz : size (current ∖ seen) = 0%nat) by lia.
    apply size_empty_inv in Hz. apply leibniz_equiv in Hz. rewrite Hz. reflexivity.
Qed.

(** The ticker loop of [runPolling]: each tick emits [current ∖ seen]. *)
Lemma run_ticks (ss : list (gset Z)) (seen : gset Z) :
  exists tr, run_trace (PollingActive seen) (map OSnapshot ss) = Some tr /\
             map (fun x => emitted (snd x)) tr = spec_poll_diffs seen ss /\
             Forall (fun x => is_polling (fst x) = true) tr.
Proof.
  revert seen; induction ss as [|s ss IH]; intros seen.
  - exists []. repeat split; constructor.
  - destruct (step_tick seen s) as (a & Hst & Hem).
    destruct (IH s) as (tr & Htr & Hm & Hp).
    exists ((PollingActive s, a) :: tr). cbn [map].
    rewrite run_trace_cons, Hst, Htr. repeat split; [| constructor; auto].
    simpl. rewrite Hem, Hm. reflexivity.
Qed.

Lemma run_polling (s0 : gset Z) (ss : list (gset Z)) :
  exists tr, run_trace PollingStarting (OSnapshot s0 :: map OSnapshot ss) = Some tr /\
             map (fun x => emitted (snd x)) tr = ∅ :: spec_poll_diffs s0 ss /\
             Forall (fun x => is_polling (fst x) = true) tr.
Proof.
  destruct (run_ticks ss s0) as (tr & Htr & Hm & Hp).
  exists ((PollingActive s0, []) :: tr). rewrite run_trace_cons.
  change (step PollingStarting (OSnapshot s0)) with (Some (PollingActive s0, @nil action)).
  cbv beta iota. rewrite Htr.
  repeat split; [| constructor; auto]. simpl. rewrite Hm. reflexivity.
Qed.

(** The [select] loop of [run] in netlink mode on a run of pids. *)
Lemma run_netlink_pids (ps : list Z) :
  run_trace NetlinkActive (map OPid ps) =
  Some (map (fun p => (NetlinkActive, [ACheckNew {[ p ]}])) ps).
Proof.
  induction ps as [|p ps IH]; simpl; [reflexivity|]. rewrite IH. reflexivity.
Qed.

Lemma deliveries_netlink (ps : list Z) :
  deliveries (concat (map snd (map (fun p => (NetlinkActive, [ACheckNew {[ p ]}])) ps))) = ps.
Proof.
  induction ps as [|p ps IH]; simpl; [reflexivity|].
  rewrite elements_singleton. simpl. f_equal. exact IH.
Qed.

Lemma run_trace_drop (os : list obs) (m : mode) (tr : list (mode * list action))
  (i : nat) (mi : mode) (ai : list action) :
  run_trace m os = Some tr -> tr !! i = Some (mi, ai) ->
  run_trace mi (drop (S i) os) = Some (drop (S i) tr).
Proof.
  revert m tr i; induction os as [|o os IH]; intros m tr i Hr Hi.
  - simpl in Hr. injection Hr as <-. discriminate.
  - rewrite run_trace_cons in Hr.
    destruct (step m o) as [[m' a]|]; [|discriminate].
    destruct (run_trace m' os) as [tr'|] eqn:E; [|discriminate].
    injection Hr as <-.
    destruct i as [|i].
    + simpl in Hi. injection Hi as <- <-. exact E.
    + simpl in Hi. simpl. exact (IH m' tr' i E Hi).
Qed.

Lemma run_trace_step_at (os : list obs) (m : mode) (tr : list (mode * list action))
  (j : nat) (mj : mode) (aj : list action) :
  run_trace m os = Some tr -> tr !! j = Some (mj, aj) ->
  exists mp o, os !! j = Some o /\ step mp o = Some (mj, aj).
Proof.
  revert m tr j; induction os as [|o os IH]; intros m tr j Hr Hj.
  - simpl in Hr. injection Hr as <-. discriminate.
  - rewrite run_trace_cons in Hr.
    destruct (step m o) as [[m' a]|] eqn:Es; [|discriminate].
    destruct (run_trace m' os) as [tr'|] eqn:E; [|discriminate].
    injection Hr as <-.
    destruct j as [|j].
    + simpl in Hj. injection Hj as <- <-. exists m, o. split; [reflexivity|exact Es].
    + simpl in Hj. exact (IH m' tr' j E Hj).
Qed.

Lemma step_to_stopped (m : mode) (o : obs) (a : list action) :
  step m o = Some (Stopped, a) -> o = OSignal.
Proof.
  intros H. destruct m, o; simpl in H; try discriminate; try reflexivity.
  destruct (listen_setup _ _ _); discriminate.
Qed.

Definition polling_or_stopped (m : mode) : bool :=
  match m with PollingStarting | PollingActive _ | Stopped => true | _ => false end.

Lemma step_polling (m : mode) (o : obs) (m' : mode) (a : list action) :
  polling_or_stopped m = true -> step m o = Some (m', a) ->
  polling_or_stopped m' = true /\ Forall (fun x => is_listen x = false /\ is_start_polling x = false) a.
Proof.
  intros Hm H. destruct m, o; simpl in Hm, H; try discriminate;
    injection H as <- <-; (split; [reflexivity|]); repeat constructor.
  destruct (decide _); repeat constructor.
Qed.

Lemma count_acts_cons (f : action -> bool) (m : mode) (a : list action)
  (tr : list (mode * list action)) :
  count_acts f ((m, a) :: tr) = (length (filter (fun x => f x = true) a) + count_acts f tr)%nat.
Proof. unfold count_acts. simpl. rewrite filter_app, length_app. reflexivity. Qed.

Lemma filter_none (f : action -> bool) (a : list action) :
  Forall (fun x => f x = false) a -> length (filter (fun x => f x = true) a) = 0%nat.
Proof.
  induction 1 as [|x a Hx _ IH]; [reflexivity|].
  rewrite filter_cons. destruct (decide (f x = true)); [congruence|exact IH].
Qed.

(** From a polling mode (or after the stop), every later mode is a polling
    mode or [Stopped], and neither [listenProcExec] nor [runPolling] is
    called again. *)
Lemma run_polling_closed (os : list obs) (m : mode) (tr : list (mode * list action)) :
  polling_or_stopped m = true -> run_trace m os = Some tr ->
  Forall (fun x => polling_or_stopped (fst x) = true) tr /\
  count_acts is_listen tr = 0%nat /\ count_acts is_start_polling tr = 0%nat.
Proof.
  revert m tr; induction os as [|o os IH]; intros m tr Hm Hr.
  - simpl in Hr. injection Hr as <-. repeat split; constructor.
  - rewrite run_trace_cons in Hr.
    destruct (step m o) as [[m' a]|] eqn:Es; [|discriminate].
    destruct (run_trace m' os) as [tr'|] eqn:E; [|discriminate].
    injection Hr as <-.
    destruct (step_polling m o m' a Hm Es) as [Hm' Ha].
    destruct (IH m' tr' Hm' E) as (H1 & H2 & H3).
    rewrite !count_acts_cons, H2, H3.
    assert (Hl : Forall (fun x => is_listen x = false) a)
      by (eapply Forall_impl; [exact Ha|]; simpl; tauto).
    assert (Hs : Forall (fun x => is_start_polling x = false) a)
      by (eapply Forall_impl; [exact Ha|]; simpl; tauto).
    rewrite (filter_none _ _ Hl), (filter_none _ _ Hs).
    split; [constructor; auto|]. split; reflexivity.
Qed.

Lemma run_netlink_counts (os : list obs) (tr : list (mode * list action)) :
  run_trace NetlinkActive os = Some tr ->
  count_acts is_listen tr = 0%nat /\ (count_acts is_start_polling tr <= 1)%nat.
Proof.
  revert tr; induction os as [|o os IH]; intros tr Hr.
  - simpl in Hr. injection Hr as <-. split; [reflexivity|]. unfold count_acts. simpl. lia.
  - rewrite run_trace_cons in Hr.
    destruct o; simpl in Hr; try discriminate.
    + destruct (run_trace NetlinkActive os) as [tr'|] eqn:E; [|discriminate].
      injection Hr as <-. rewrite !count_acts_cons.
      destruct (IH tr' eq_refl) as [H1 H2]. simpl. lia.
    + destruct (run_trace PollingStarting os) as [tr'|] eqn:E; [|discriminate].
      injection Hr as <-. rewrite !count_acts_cons.
      destruct (run_polling_closed os PollingStarting tr' eq_refl E) as (_ & H1 & H2).
      simpl. lia.
    + destruct (run_trace Stopped os) as [tr'|] eqn:E; [|discriminate].
      injection Hr as <-. rewrite !count_acts_cons.
      destruct (run_polling_closed os Stopped tr' eq_refl E) as (_ & H1 & H2).
      simpl. lia.
Qed.

(** The netlink path of [run] keeps no recently-seen set: every pid
    received from the channel is handed to [checkNew] on its own,
    repeated pids included. *)
Theorem run_forwards_every_pid (ps : list Z) :
  exists tr, run_trace Starting (OConnect None None None :: map OPid ps) = Some tr /\
             deliveries (concat (map snd tr)) = ps /\
             count_acts (fun a => match a with ACheckNew _ => true | _ => false end) tr
               = length ps.
Proof.
  exists ((NetlinkActive, [AListen]) :: map (fun p => (NetlinkActive, [ACheckNew {[ p ]}])) ps).
  rewrite run_trace_cons.
  change (step Starting (OConnect None None None)) with (Some (NetlinkActive, [AListen])).
  cbv beta iota. rewrite run_netlink_pids.
  split; [reflexivity|]. split.
  - simpl. apply deliveries_netlink.
  - rewrite count_acts_cons. simpl.
    induction ps as [|p ps IH]; [reflexivity|].
    cbn [map]. rewrite count_acts_cons. simpl. rewrite IH. reflexivity.
Qed.

(** C1: the same pid delivered twice in a row by the netlink channel,
    with no time between the two, reaches [checkNew] twice, where the
    suppression window (and the README's note that dedup is kept in)
    would let it through once. *)
Lemma run_duplicate_pid_delivered_twice :
  option_map (fun tr => deliveries (concat (map snd tr)))
    (run_trace Starting [OConnect None None None; OPid 5; OPid 5]) = Some [5; 5].
Proof. reflexivity. Qed.

(** C3: the baseline snapshot of [runPolling] reports nothing; every later
    tick reports [current ∖ previous]; on S0, S1 = S0 ∪ {7, 9},
    S2 = S1 ∖ {7} (7 and 9 new) the reports are nothing, {7, 9},
    nothing. *)
Theorem runPolling_reports_diffs (s0 : gset Z) (ss : list (gset Z)) :
  (exists tr, run_trace PollingStarting (OSnapshot s0 :: map OSnapshot ss) = Some tr /\
              map (fun x => emitted (snd x)) tr = ∅ :: spec_poll_diffs s0 ss) /\
  (7 ∉ s0 -> 9 ∉ s0 ->
   exists tr, run_trace PollingStarting
                [OSnapshot s0; OSnapshot (s0 ∪ {[ 7; 9 ]});
                 OSnapshot ((s0 ∪ {[ 7; 9 ]}) ∖ {[ 7 ]})] = Some tr /\
              map (fun x => emitted (snd x)) tr = [∅; {[ 7; 9 ]}; ∅]).
Proof.
  split.
  - destruct (run_polling s0 ss) as (tr & H1 & H2 & _). eauto.
  - intros H7 H9.
    destruct (run_polling s0 [s0 ∪ {[ 7; 9 ]}; (s0 ∪ {[ 7; 9 ]}) ∖ {[ 7 ]}])
      as (tr & H1 & H2 & _).
    exists tr. split; [exact H1|]. rewrite H2. simpl.
    assert (E1 : (s0 ∪ {[ 7; 9 ]}) ∖ s0 = {[ 7; 9 ]}) by set_solver.
    assert (E2 : ((s0 ∪ {[ 7; 9 ]}) ∖ {[ 7 ]}) ∖ (s0 ∪ {[ 7; 9 ]}) = ∅) by set_solver.
    rewrite E1, E2. reflexivity.
Qed.

Lemma runPolling_reports_diffs_witness :
  exists tr, run_trace PollingStarting
               [OSnapshot {[ 1; 2 ]}; OSnapshot ({[ 1; 2 ]} ∪ {[ 7; 9 ]});
                OSnapshot (({[ 1; 2 ]} ∪ {[ 7; 9 ]}) ∖ {[ 7 ]})] = Some tr /\
             map (fun x => emitted (snd x)) tr = [∅; {[ 7; 9 ]}; ∅].
Proof.
  apply (proj2 (runPolling_reports_diffs {[ 1; 2 ]} [])); vm_compute; discriminate.
Defined.

(** C7: when [syscall.Socket], [syscall.Bind] or [sendSubscribe] fails,
    [run] logs the error and calls [runPolling]; the poller then reports
    nothing for its baseline and [current ∖ previous] on each tick. [run]
    returns no error value on any path. *)
Theorem run_connect_failure_polls (se be sube : option Z) (s0 : gset Z)
  (ss : list (gset Z)) (Hfail : se <> None \/ be <> None \/ sube <> None) :
  exists tr,
    run_trace Starting (OConnect se be sube :: OSnapshot s0 :: map OSnapshot ss)
      = Some ((PollingStarting, [AListen; AStartPolling]) :: tr) /\
    Forall (fun x => is_polling (fst x) = true) tr /\
    map (fun x => emitted (snd x)) tr = ∅ :: spec_poll_diffs s0 ss.
Proof.
  assert (Hs : step Starting (OConnect se be sube) =
               Some (PollingStarting, [AListen; AStartPolling])).
  { simpl. unfold listen_setup.
    destruct se; [reflexivity|]. destruct be; [reflexivity|].
    destruct sube; [reflexivity|]. intuition congruence. }
  destruct (run_polling s0 ss) as (tr & H1 & H2 & H3).
  exists tr. rewrite run_trace_cons, Hs, H1. auto.
Qed.

Lemma run_connect_failure_polls_witness :
  exists tr,
    run_trace Starting (OConnect (Some 1) None None :: OSnapshot {[ 1 ]} :: map OSnapshot [{[ 1; 2 ]}])
      = Some ((PollingStarting, [AListen; AStartPolling]) :: tr) /\
    Forall (fun x => is_polling (fst x) = true) tr /\
    map (fun x => emitted (snd x)) tr = ∅ :: spec_poll_diffs {[ 1 ]} [{[ 1; 2 ]}].
Proof.
  apply (run_connect_failure_polls (Some 1) None None {[ 1 ]} [{[ 1; 2 ]}]).
  left. discriminate.
Defined.

(** C8: in any run, [listenProcExec] and [runPolling] are each called at
    most once; once a polling mode is reached every later mode is a
    polling mode or [Stopped]; and [Stopped] is reached only on a signal. *)
Theorem run_fallback_once (os : list obs) (tr : list (mode * list action))
  (Hrun : run_trace Starting os = Some tr) :
  (count_acts is_listen tr <= 1)%nat /\
  (count_acts is_start_polling tr <= 1)%nat /\
  (forall i j mi ai mj aj, (i <= j)%nat -> tr !! i = Some (mi, ai) ->
     tr !! j = Some (mj, aj) -> is_polling mi = true ->
     is_polling mj = true \/ mj = Stopped) /\
  (forall j aj, tr !! j = Some (Stopped, aj) -> os !! j = Some OSignal).
Proof.
  split; [|split; [|split]].
  - destruct os as [|o os]; [simpl in Hrun; injection Hrun as <-; unfold count_acts; simpl; lia|].
    rewrite run_trace_cons in Hrun.
    destruct o; simpl in Hrun; try discriminate.
    destruct (listen_setup _ _ _).
    + destruct (run_trace PollingStarting os) as [tr'|] eqn:E; [|discriminate].
      injection Hrun as <-. rewrite count_acts_cons.
      destruct (run_polling_closed os PollingStarting tr' eq_refl E) as (_ & H1 & _).
      simpl. lia.
    + destruct (run_trace NetlinkActive os) as [tr'|] eqn:E; [|discriminate].
      injection Hrun as <-. rewrite count_acts_cons.
      destruct (run_netlink_counts os tr' E) as [H1 _]. simpl. lia.
  - destruct os as [|o os]; [simpl in Hrun; injection Hrun as <-; unfold count_acts; simpl; lia|].
    rewrite run_trace_cons in Hrun.
    destruct o; simpl in Hrun; try discriminate.
    destruct (listen_setup _ _ _).
    + destruct (run_trace PollingStarting os) as [tr'|] eqn:E; [|discriminate].
      injection Hrun as <-. rewrite count_acts_cons.
      destruct (run_polling_closed os PollingStarting tr' eq_refl E) as (_ & _ & H2).
      simpl. lia.
    + destruct (run_trace NetlinkActive os) as [tr'|] eqn:E; [|discriminate].
      injection Hrun as <-. rewrite count_acts_cons.
      destruct (run_netlink_counts os tr' E) as [_ H2]. simpl. lia.
  - intros i j mi ai mj aj Hij Hi Hj Hp.
    destruct (Nat.eq_dec i j) as [<-|Hne].
    + rewrite Hi in Hj. injection Hj as <- <-. left. exact Hp.
    + pose proof (run_trace_drop os Starting tr i mi ai Hrun Hi) as Hd.
      assert (Hpo : polling_or_stopped mi = true) by (destruct mi; simpl in *; congruence).
      destruct (run_polling_closed _ _ _ Hpo Hd) as (Hall & _ & _).
      assert (Hj' : drop (S i) tr !! (j - S i)%nat = Some (mj, aj)).
      { rewrite lookup_drop. replace (S i + (j - S i))%nat with j by lia. exact Hj. }
      rewrite Forall_lookup in Hall. specialize (Hall _ _ Hj'). simpl in Hall.
      destruct mj; simpl in *; auto; discriminate.
  - intros j aj Hj.
    destruct (run_trace_step_at os Starting tr j Stopped aj Hrun Hj) as (mp & o & Ho & Hs).
    rewrite Ho. f_equal. exact (step_to_stopped mp o aj Hs).
Qed.

Lemma run_fallback_once_witness :
  (count_acts is_listen
     [(NetlinkActive, [AListen]); (NetlinkActive, [ACheckNew {[ 42%Z ]}]);
      (PollingStarting, [AStartPolling]); (PollingActive {[ 1%Z ]}, []);
      (Stopped, [AStop])] <= 1)%nat.
Proof.
  apply (proj1 (run_fallback_once
    [OConnect None None None; OPid 42; OClosed; OSnapshot {[ 1%Z ]}; OSignal]
    [(NetlinkActive, [AListen]); (NetlinkActive, [ACheckNew {[ 42%Z ]}]);
     (PollingStarting, [AStartPolling]); (PollingActive {[ 1%Z ]}, []);
     (Stopped, [AStop])] ltac:(reflexivity))).
Defined.

(* ================================================================== *)
(** * Further properties of the receive loop *)

(** With room in the channel, one datagram enqueues the pids of its exec
    messages in the order of the messages; other messages are dropped
    without a log line. *)
Theorem recv_step_datagram_in_order (le : bool) (s : recv_state) (msgs : list (list byte))
  (Hrun : finished s = false)
  (Hroom : (length (queue s) + length (omap (parseCnProcExec le) msgs) <= pidChanCap)%nat) :
  recv_step le s (RRead (ReadData (Some msgs))) =
  mk_recv_state (queue s ++ omap (parseCnProcExec le) msgs) (logs s) (fd_open s)
                (ch_closed s) false.
Proof.
  simpl. rewrite Hrun. unfold recv_msgs.
  revert s Hrun Hroom; induction msgs as [|d msgs IH]; intros s Hrun Hroom; simpl.
  - rewrite app_nil_r. destruct s; simpl in Hrun; subst; reflexivity.
  - change (omap (parseCnProcExec le) (d :: msgs)) with
      (match parseCnProcExec le d with
       | Some y => y :: omap (parseCnProcExec le) msgs
       | None => omap (parseCnProcExec le) msgs end) in Hroom |- *.
    destruct (parseCnProcExec le d) as [pid|] eqn:E.
    + simpl in Hroom. unfold recv_send.
      destruct (Nat.ltb_spec (length (queue s)) pidChanCap); [|lia].
      rewrite IH; simpl; [|exact Hrun|rewrite length_app; simpl; lia].
      rewrite <- app_assoc. reflexivity.
    + apply IH; assumption.
Qed.

Lemma recv_step_datagram_in_order_witness :
  recv_step true recv_init
    (RRead (ReadData (Some [encodeFrame true (mk_cnMsg 1 1 0 0 24 0) (mk_procEvent 2 0 0 7 7);
                            [x01; x02];
                            encodeFrame true (mk_cnMsg 1 1 0 0 24 0) (mk_procEvent 2 0 0 9 9)])))
  = mk_recv_state [7; 9] [] true false false.
Proof.
  rewrite (recv_step_datagram_in_order true recv_init); [reflexivity|reflexivity|].
  vm_compute. lia.
Defined.

(** Cancellation: when [ctx] is done at the top of an iteration, the
    goroutine returns; the channel and the socket are closed, nothing is
    logged, and no pid is sent afterwards. *)
Theorem recv_loop_cancel (le : bool) (s : recv_state) (rest : list recv_input)
  (Hrun : finished s = false) :
  let s' := recv_loop le s (RCancel :: rest) in
  finished s' = true /\ ch_closed s' = true /\ fd_open s' = false /\
  logs s' = logs s /\ queue s' `suffix_of` queue s.
Proof.
  cbv zeta. rewrite recv_loop_cons. simpl recv_step. rewrite Hrun.
  destruct (recv_loop_finished le rest (recv_return s) eq_refl) as (H1 & H2 & H3 & H4 & H5).
  rewrite H1, H2, H3, H4. simpl in *. auto.
Qed.

Lemma recv_loop_cancel_witness :
  ch_closed (recv_loop true recv_init [RCancel; RRead (ReadErr EINTR)]) = true.
Proof. apply (recv_loop_cancel true recv_init [RRead (ReadErr EINTR)] eq_refl). Defined.

(* ================================================================== *)
(** * Notification templates *)

Lemma string_app_cons (x : ascii) (a b : string) : String x a +:+ b = String x (a +:+ b).
Proof. reflexivity. Qed.

Lemma string_app_nil_l (a : string) : ""%string +:+ a = a.
Proof. reflexivity. Qed.

Ltac string_app_simpl := rewrite ?string_app_cons, ?string_app_nil_l.

Lemma string_app_assoc (a b c : string) : (a +:+ b) +:+ c = a +:+ (b +:+ c).
Proof. induction a as [|x a IH]; string_app_simpl; [reflexivity|]. rewrite IH. reflexivity. Qed.

Lemma string_app_nil_r (a : string) : a +:+ ""%string = a.
Proof. induction a as [|x a IH]; string_app_simpl; [reflexivity|]. rewrite IH. reflexivity. Qed.

Ltac string_norm :=
  repeat progress rewrite ?string_app_assoc, ?string_app_cons, ?string_app_nil_l,
    ?string_app_nil_r.

Lemma tmpl_scan_empty_ctx (s : string) (pending : option string) :
  tmpl_scan ∅ s pending = tmpl_pending_text pending +:+ s.
Proof.
  revert pending; induction s as [|c r IH]; intros [w|]; simpl.
  - string_norm. reflexivity.
  - reflexivity.
  - destruct (is_word_char c).
    + rewrite IH. simpl. string_norm. reflexivity.
    + destruct (Ascii.eqb c "}" && negb (String.eqb w "")) eqn:Eb.
      * apply andb_true_iff in Eb as [Ec _]. apply Ascii.eqb_eq in Ec. subst c.
        rewrite IH. unfold tmpl_repl. rewrite lookup_empty. simpl.
        string_norm. reflexivity.
      * destruct (Ascii.eqb c "{") eqn:Ec.
        -- apply Ascii.eqb_eq in Ec. subst c. rewrite IH. simpl.
           string_norm. reflexivity.
        -- rewrite IH. simpl. string_norm. reflexivity.
  - destruct (Ascii.eqb c "{") eqn:Ec.
    + apply Ascii.eqb_eq in Ec. subst c. rewrite IH. reflexivity.
    + rewrite IH. reflexivity.
Qed.

(** With no values to substitute, [formatTemplate] returns its template
    unchanged: a placeholder whose key is missing stays as written. *)
Theorem formatTemplate_empty_ctx (tmpl : string) : formatTemplate tmpl ∅ = tmpl.
Proof. unfold formatTemplate. rewrite tmpl_scan_empty_ctx. reflexivity. Qed.

Lemma tmpl_scan_no_brace (ctx : gmap string string) (a b : string) :
  string_forallb (fun c => negb (Ascii.eqb c "{")) a = true ->
  tmpl_scan ctx (a +:+ b) None = a +:+ tmpl_scan ctx b None.
Proof.
  induction a as [|c a IH]; simpl; [reflexivity|].
  intros H. apply andb_true_iff in H as [Hc Ha].
  destruct (Ascii.eqb c "{"); [discriminate|]. rewrite IH by exact Ha. reflexivity.
Qed.

Lemma tmpl_scan_word (ctx : gmap string string) (k r w : string) :
  string_forallb is_word_char k = true ->
  tmpl_scan ctx (k +:+ r) (Some w) = tmpl_scan ctx r (Some (w +:+ k)).
Proof.
  revert w; induction k as [|c k IH]; intros w H; simpl.
  - rewrite string_app_nil_r. reflexivity.
  - apply andb_true_iff in H as [Hc Hk]. rewrite Hc, IH by exact Hk.
    rewrite string_app_assoc. reflexivity.
Qed.

(** A placeholder [{k}] ([k] a non-empty run of word characters) after
    text free of ["{"] is replaced by the value of [k], or kept as written
    when [k] has no value; the value is not scanned again and the scan goes
    on after the closing brace. *)
Theorem formatTemplate_placeholder (ctx : gmap string string) (a k b : string)
  (Ha : string_forallb (fun c => negb (Ascii.eqb c "{")) a = true)
  (Hk : string_forallb is_word_char k = true) (Hne : k <> ""%string) :
  formatTemplate (a +:+ "{" +:+ k +:+ "}" +:+ b) ctx =
  a +:+ (match ctx !! k with Some v => v | None => "{" +:+ k +:+ "}" end) +:+
  formatTemplate b ctx.
Proof.
  unfold formatTemplate. rewrite tmpl_scan_no_brace by exact Ha. f_equal.
  rewrite string_app_cons, string_app_nil_l. simpl.
  rewrite (tmpl_scan_word ctx k) by exact Hk. string_norm. simpl.
  destruct (String.eqb_spec k ""); [contradiction|]. simpl.
  unfold tmpl_repl. destruct (ctx !! k); reflexivity.
Qed.

Lemma formatTemplate_placeholder_witness :
  formatTemplate ("PID " +:+ "{" +:+ "pid" +:+ "}" +:+ "!") {[ "pid" := "42" ]} = "PID 42!"%string.
Proof.
  rewrite (formatTemplate_placeholder {[ "pid" := "42" ]} "PID " "pid" "!");
    [reflexivity|reflexivity|reflexivity|discriminate].
Defined.

(* ================================================================== *)
(** * Criteria, notifications and reloads *)

Section CriteriaFacts.
Local Open Scope string_scope.
Variable regex : Type.
Variable compile : string -> option regex.
Variable match_string : regex -> string -> bool.
Variable unmarshal : string -> option (list criterionRaw).

Lemma buildCriterion_ok (r : criterionRaw) (c : Criterion regex) :
  buildCriterion regex compile r = inr c ->
  Name regex c = RawName r /\
  cmdlineContains regex c = CmdlineContains (RawMatch r) /\
  username regex c = Username (RawMatch r) /\
  notifyTitle regex c = (if String.eqb (NotifyTitle r) "" then "New process" else NotifyTitle r) /\
  notifyBody regex c = (if String.eqb (NotifyBody r) "" then "PID {pid}: {name}" else NotifyBody r) /\
  urgency regex c = (if String.eqb (Urgency r) "" then "normal" else Urgency r) /\
  (nameRegex regex c = None <-> NameRegex (RawMatch r) = "").
Proof.
  unfold buildCriterion. destruct (String.eqb_spec (NameRegex (RawMatch r)) "") as [He|Hne]; simpl.
  - intros [= <-]. simpl. repeat split; auto.
  - destruct (compile _) as [re|]; [|discriminate]. intros [= <-]. simpl.
    repeat split; auto; try discriminate. intros; contradiction.
Qed.

(** With an empty title and body in its entry, a criterion notifies with
    the title ["New process"] and the body ["PID <pid>: <name>"]. *)
Theorem formatNotification_default (r : criterionRaw) (c : Criterion regex) (pid : Z)
  (p : procInfo) (name : string)
  (Hb : buildCriterion regex compile r = inr c)
  (Ht : NotifyTitle r = "") (Hbd : NotifyBody r = "") (Hn : procName p = Some name) :
  formatNotification regex c pid p = ("New process", "PID " +:+ pretty pid +:+ ": " +:+ name).
Proof.
  apply buildCriterion_ok in Hb as (_ & _ & _ & Htc & Hbc & _).
  rewrite Ht in Htc; rewrite Hbd in Hbc; simpl in Htc, Hbc.
  unfold formatNotification. rewrite Htc, Hbc, Hn. unfold formatTemplate. simpl.
  unfold tmpl_repl. simplify_map_eq. string_norm. reflexivity.
Qed.

Lemma buildCriterion_inl (r : criterionRaw) (e : string) :
  buildCriterion regex compile r = inl e <->
  NameRegex (RawMatch r) <> "" /\ compile ("(?i)" +:+ NameRegex (RawMatch r)) = None /\
  e = RawName r.
Proof.
  unfold buildCriterion. destruct (String.eqb_spec (NameRegex (RawMatch r)) "") as [He|Hne]; simpl.
  - split; [discriminate|]. intros [? _]; contradiction.
  - destruct (compile _) as [re|]; split.
    + discriminate.
    + intros (_ & ? & _); discriminate.
    + intros [= <-]. auto.
    + intros (_ & _ & ->). reflexivity.
Qed.

Lemma buildCriterion_inr (r : criterionRaw) :
  (exists c, buildCriterion regex compile r = inr c) <-> regex_ok regex compile r.
Proof.
  unfold regex_ok, buildCriterion.
  destruct (String.eqb_spec (NameRegex (RawMatch r)) "") as [He|Hne]; simpl.
  - split; [auto|]. intros _. eexists; reflexivity.
  - destruct (compile _) as [re|]; split.
    + intros _; right; discriminate.
    + intros _; eexists; reflexivity.
    + intros [c Hc]; discriminate.
    + intros [H|H]; contradiction.
Qed.

Lemma buildCriteria_inr (raw : list criterionRaw) (cs : list (Criterion regex)) :
  buildCriteria regex compile raw = inr cs <->
  Forall2 (fun r c => buildCriterion regex compile r = inr c) raw cs.
Proof.
  revert cs; induction raw as [|r rest IH]; intros cs; simpl.
  - split; [intros [= <-]; constructor|]. intros H. apply Forall2_nil_inv_l in H. subst. reflexivity.
  - destruct (buildCriterion regex compile r) as [e|c] eqn:Er.
    + split; [discriminate|]. intros H. apply Forall2_cons_inv_l in H as (c & cs' & Hc & _ & _).
      congruence.
    + destruct (buildCriteria regex compile rest) as [e|cs'] eqn:Erest.
      * split; [discriminate|]. intros H.
        apply Forall2_cons_inv_l in H as (c' & cs'' & _ & Hcs & _).
        apply IH in Hcs. discriminate.
      * split.
        -- intros [= <-]. constructor; [exact Er|]. apply IH. reflexivity.
        -- intros H. apply Forall2_cons_inv_l in H as (c' & cs'' & Hc & Hcs & ->).
           apply IH in Hcs. congruence.
Qed.

Lemma buildCriteria_inl (raw : list criterionRaw) (e : string) :
  buildCriteria regex compile raw = inl e <->
  exists pre r post, raw = (pre ++ r :: post)%list /\ Forall (regex_ok regex compile) pre /\
    NameRegex (RawMatch r) <> "" /\ compile ("(?i)" +:+ NameRegex (RawMatch r)) = None /\
    e = RawName r.
Proof.
  induction raw as [|r0 rest IH]; simpl.
  - split; [discriminate|]. intros (pre & r & post & Hl & _). destruct pre; discriminate.
  - destruct (buildCriterion regex compile r0) as [e0|c] eqn:Er.
    + split.
      * intros [= <-]. apply buildCriterion_inl in Er. exists [], r0, rest. auto.
      * intros (pre & r & post & Hl & Hok & Hr). destruct pre as [|r1 pre].
        -- simpl in Hl. injection Hl as <- <-. apply buildCriterion_inl in Hr. congruence.
        -- simpl in Hl. injection Hl as <- ->. apply Forall_cons in Hok as [Hr0 _].
           apply buildCriterion_inr in Hr0 as [c Hc]. congruence.
    + assert (Hr0 : regex_ok regex compile r0) by (apply buildCriterion_inr; eauto).
      destruct (buildCriteria regex compile rest) as [e'|cs] eqn:Erest.
      * split.
        -- intros [= <-]. destruct (proj1 IH eq_refl) as (pre & r & post & Hl & Hok & Hr).
           exists (r0 :: pre), r, post. subst rest. split; [reflexivity|].
           split; [constructor; assumption|exact Hr].
        -- intros (pre & r & post & Hl & Hok & Hr). destruct pre as [|r1 pre].
           ++ simpl in Hl. injection Hl as <- <-. apply buildCriterion_inl in Hr. congruence.
           ++ simpl in Hl. injection Hl as <- ->. apply Forall_cons in Hok as [_ Hok].
              apply IH. exists pre, r, post. auto.
      * split; [discriminate|]. intros (pre & r & post & Hl & Hok & Hr). destruct pre as [|r1 pre].
        -- simpl in Hl. injection Hl as <- <-. apply buildCriterion_inl in Hr. congruence.
        -- simpl in Hl. injection Hl as <- ->. apply Forall_cons in Hok as [_ Hok].
           assert (H : @inr string (list (Criterion regex)) cs = inl e)
             by (apply IH; exists pre, r, post; auto).
           discriminate.
Qed.


Lemma prefix_app (t s : string) : String.prefix t (t +:+ s) = true.
Proof.
  induction t as [|x t IH]; [destruct s; reflexivity|].
  rewrite string_app_cons. simpl. destruct (ascii_dec x x); [exact IH|congruence].
Qed.

Lemma contains_unfold (s t : string) :
  contains s t = String.prefix t s || match s with EmptyString => false | String _ s' => contains s' t end.
Proof. destruct s; reflexivity. Qed.

Lemma contains_app_l (a s t : string) : contains s t = true -> contains (a +:+ s) t = true.
Proof.
  intros H. induction a as [|x a IH]; [exact H|].
  rewrite string_app_cons, contains_unfold, IH. apply orb_true_r.
Qed.

Lemma contains_prefix (t s : string) : contains (t +:+ s) t = true.
Proof. rewrite contains_unfold, prefix_app. reflexivity. Qed.

Lemma contains_empty (s : string) : contains s "" = true.
Proof. destruct s; reflexivity. Qed.

Lemma join_cons_ne (p : string) (l : list string) (sep : string) :
  l <> [] -> join (p :: l) sep = p +:+ sep +:+ join l sep.
Proof. destruct l; [contradiction|reflexivity]. Qed.

Lemma join_adjacent (pre post : list string) (x y : string) :
  exists A B, join (pre ++ x :: y :: post)%list " " = A +:+ (x +:+ " " +:+ y +:+ B).
Proof.
  induction pre as [|p pre IH]; cbn [app].
  - exists "". destruct post as [|q post]; simpl.
    + exists "". simpl. rewrite string_app_nil_l, string_app_nil_r. reflexivity.
    + exists (" " +:+ join (q :: post) " "). rewrite string_app_nil_l.
      reflexivity.
  - destruct IH as (A & B & HAB). exists (p +:+ " " +:+ A), B.
    rewrite join_cons_ne by (destruct pre; discriminate).
    rewrite HAB. string_norm. reflexivity.
Qed.

Lemma notify_process_filter (criteria : list (Criterion regex)) (pid : Z) (p : procInfo) :
  notify_process regex match_string criteria pid p =
  map (fun c => mk_notification (fst (formatNotification regex c pid p))
                  (snd (formatNotification regex c pid p)) (urgency regex c))
      (filter (fun c => matches regex match_string c p = true) criteria).
Proof.
  induction criteria as [|c cs IH]; [reflexivity|].
  change (notify_process regex match_string (c :: cs) pid p) with
    ((if matches regex match_string c p
      then [mk_notification (fst (formatNotification regex c pid p))
              (snd (formatNotification regex c pid p)) (urgency regex c)]
      else []) ++ notify_process regex match_string cs pid p)%list.
  rewrite IH.
  destruct (matches regex match_string c p) eqn:Em.
  - rewrite filter_cons_True by exact Em. reflexivity.
  - rewrite filter_cons_False by congruence. reflexivity.
Qed.

(** A process whose name cannot be read ([proc.Name()] fails) matches no
    criterion, so [checkNew] sends nothing for it. *)
Theorem notify_process_unreadable (criteria : list (Criterion regex)) (pid : Z) (p : procInfo)
  (Hn : procName p = None) :
  notify_process regex match_string criteria pid p = [].
Proof.
  rewrite notify_process_filter. induction criteria as [|c cs IH]; [reflexivity|].
  rewrite filter_cons_False; [exact IH|]. unfold matches. rewrite Hn. discriminate.
Qed.

(** A criterion built from an entry with no name regex, no command-line
    terms and no user name matches exactly the processes whose name can
    be read. *)
Theorem matches_unconstrained (r : criterionRaw) (c : Criterion regex) (p : procInfo)
  (Hb : buildCriterion regex compile r = inr c)
  (Hre : NameRegex (RawMatch r) = "") (Hcl : CmdlineContains (RawMatch r) = [])
  (Hu : Username (RawMatch r) = "") :
  matches regex match_string c p = match procName p with Some _ => true | None => false end.
Proof.
  apply buildCriterion_ok in Hb as (_ & Hcl' & Hu' & _ & _ & _ & Hnr).
  unfold matches. destruct (procName p); [|reflexivity].
  rewrite (proj2 Hnr Hre), Hcl', Hcl, Hu', Hu. reflexivity.
Qed.

(** An empty [cmdline_contains] term never excludes a process: the
    criterion matches as if such terms were absent. *)
Theorem matches_empty_terms (c : Criterion regex) (p : procInfo) :
  matches regex match_string c p =
  matches regex match_string
    (mk_Criterion regex (Name regex c) (nameRegex regex c)
       (filter (fun t => t <> "") (cmdlineContains regex c))
       (username regex c) (notifyTitle regex c) (notifyBody regex c) (urgency regex c)) p.
Proof.
  unfold matches. simpl. destruct (procName p) as [name|]; [|reflexivity].
  f_equal. f_equal. generalize (cmdlineContains regex c) as l.
  induction l as [|t l IH]; [reflexivity|]. simpl.
  destruct (String.eqb_spec t "") as [->|Hne].
  - rewrite filter_cons_False by (intros H; apply H; reflexivity).
    rewrite contains_empty. exact IH.
  - rewrite filter_cons_True by exact Hne. simpl. rewrite IH. reflexivity.
Qed.

(** The command-line terms are searched in the arguments joined by single
    spaces, so a term may span two consecutive arguments. *)
Theorem matches_term_spans_args (c : Criterion regex) (p : procInfo) (name x y : string)
  (pre post : list string)
  (Hn : procName p = Some name) (Hre : nameRegex regex c = None)
  (Hcl : procCmdline p = (pre ++ x :: y :: post)%list)
  (Hterms : cmdlineContains regex c = [x +:+ " " +:+ y]) (Hu : username regex c = "") :
  matches regex match_string c p = true.
Proof.
  unfold matches. rewrite Hn, Hre, Hcl, Hterms, Hu. simpl.
  destruct (join_adjacent pre post x y) as (A & B & ->).
  rewrite contains_app_l; [reflexivity|].
  replace (x +:+ " " +:+ y +:+ B) with ((x +:+ " " +:+ y) +:+ B) by (string_norm; reflexivity).
  apply contains_prefix.
Qed.

(** On the netlink path [checkNew] gets one pid at a time: it sends one
    notification per matching criterion, in the order of the criteria,
    and nothing once the process is gone. *)
Theorem checkNew_singleton (criteria : list (Criterion regex)) (proc : Z -> option procInfo)
  (pid : Z) :
  checkNew regex match_string criteria proc {[ pid ]} =
  match proc pid with
  | None => []
  | Some p =>
      map (fun c => mk_notification (fst (formatNotification regex c pid p))
                      (snd (formatNotification regex c pid p)) (urgency regex c))
          (filter (fun c => matches regex match_string c p = true) criteria)
  end.
Proof.
  unfold checkNew. rewrite elements_singleton. simpl. rewrite app_nil_r.
  destruct (proc pid); [apply notify_process_filter|reflexivity].
Qed.

(** A notification is sent by [checkNew] exactly when it is the one
    formatted for a new pid whose process still exists and a criterion
    that matches it. *)
Theorem checkNew_In (criteria : list (Criterion regex)) (proc : Z -> option procInfo)
  (newPIDs : gset Z) (n : notification) :
  In n (checkNew regex match_string criteria proc newPIDs) <->
  exists pid p c, pid ∈ newPIDs /\ proc pid = Some p /\ In c criteria /\
    matches regex match_string c p = true /\
    n = mk_notification (fst (formatNotification regex c pid p))
          (snd (formatNotification regex c pid p)) (urgency regex c).
Proof.
  unfold checkNew. rewrite in_flat_map. split.
  - intros (pid & Hpid & Hn). destruct (proc pid) as [p|] eqn:Ep; [|contradiction].
    unfold notify_process in Hn. apply in_flat_map in Hn as (c & Hc & Hn).
    destruct (matches regex match_string c p) eqn:Em; [|contradiction].
    destruct Hn as [<-|[]]. exists pid, p, c.
    apply list_elem_of_In, elem_of_elements in Hpid. auto.
  - intros (pid & p & c & Hpid & Ep & Hc & Hm & ->). exists pid. split.
    + apply list_elem_of_In, elem_of_elements. exact Hpid.
    + rewrite Ep. unfold notify_process. apply in_flat_map. exists c.
      rewrite Hm. split; [exact Hc|left; reflexivity].
Qed.

(** The notifications for two disjoint sets of new pids are, up to
    order, those of each set: a poll cycle sends what two half-cycles
    would. *)
Theorem checkNew_disj_union (criteria : list (Criterion regex)) (proc : Z -> option procInfo)
  (X Y : gset Z) (Hdisj : X ## Y) :
  checkNew regex match_string criteria proc (X ∪ Y) ≡ₚ
  checkNew regex match_string criteria proc X ++ checkNew regex match_string criteria proc Y.
Proof.
  unfold checkNew. rewrite <- flat_map_app.
  apply Permutation_flat_map. apply elements_disj_union. exact Hdisj.
Qed.

(** A reload whose file holds an entry with an invalid name regex keeps
    the criteria in use. *)
Theorem reloadConfig_invalid_entry (old : list (Criterion regex)) (data : string)
  (raw : list criterionRaw) (r : criterionRaw)
  (Hparse : unmarshal data = Some raw) (Hin : In r raw)
  (Hne : NameRegex (RawMatch r) <> "") (Hbad : compile ("(?i)" +:+ NameRegex (RawMatch r)) = None) :
  reloadConfig regex compile unmarshal old (Some data) = old.
Proof.
  unfold reloadConfig. rewrite Hparse.
  destruct (buildCriteria regex compile raw) as [e|cs] eqn:Eb; [reflexivity|].
  exfalso. apply buildCriteria_inr in Eb. apply list_elem_of_In in Hin.
  apply list_elem_of_split in Hin as (pre & post & ->).
  apply Forall2_app_inv_l in Eb as (cs1 & cs2 & _ & Hr & _).
  apply Forall2_cons_inv_l in Hr as (c & _ & Hc & _ & _).
  assert (Hok : regex_ok regex compile r) by (apply buildCriterion_inr; eauto).
  destruct Hok; contradiction.
Qed.

(** After a reload the criteria are either the old ones or built entry by
    entry from a file that was read and parsed. *)
Theorem reloadConfig_old_or_built (old : list (Criterion regex)) (file : option string) :
  reloadConfig regex compile unmarshal old file = old \/
  exists data raw, file = Some data /\ unmarshal data = Some raw /\
    Forall2 (fun r c => buildCriterion regex compile r = inr c) raw
      (reloadConfig regex compile unmarshal old file).
Proof.
  unfold reloadConfig. destruct file as [data|]; [|left; reflexivity].
  destruct (unmarshal data) as [raw|] eqn:Eu; [|left; reflexivity].
  destruct (buildCriteria regex compile raw) as [e|cs] eqn:Eb; [left; reflexivity|].
  right. exists data, raw. split; [reflexivity|]. split; [exact Eu|].
  apply buildCriteria_inr. exact Eb.
Qed.

(** A reload of a parsed file whose name regexes all compile installs one
    criterion per entry, with the entries' names in order. *)
Theorem reloadConfig_success_names (old : list (Criterion regex)) (data : string)
  (raw : list criterionRaw)
  (Hparse : unmarshal data = Some raw) (Hok : Forall (regex_ok regex compile) raw) :
  map (Name regex) (reloadConfig regex compile unmarshal old (Some data)) = map RawName raw.
Proof.
  unfold reloadConfig. rewrite Hparse.
  destruct (buildCriteria regex compile raw) as [e|cs] eqn:Eb.
  - apply buildCriteria_inl in Eb as (pre & r & post & -> & _ & Hne & Hbad & _).
    apply Forall_app in Hok as [_ Hok]. apply Forall_cons in Hok as [[H|H] _]; contradiction.
  - apply buildCriteria_inr in Eb. clear Hparse Hok. induction Eb as [|r c raw cs Hc _ IH]; [reflexivity|].
    simpl. rewrite IH. apply buildCriterion_ok in Hc as [-> _]. reflexivity.
Qed.

(** The urgency hint sent for a built criterion: 0 for ["low"], 2 for
    ["critical"], and 1 otherwise, including an empty or unknown
    urgency. *)
Theorem urgency_hint_built (r : criterionRaw) (c : Criterion regex)
  (Hb : buildCriterion regex compile r = inr c) :
  urgency_hint (urgency regex c) =
  if String.eqb (Urgency r) "low" then 0 else if String.eqb (Urgency r) "critical" then 2 else 1.
Proof.
  apply buildCriterion_ok in Hb as (_ & _ & _ & _ & _ & -> & _).
  unfold urgency_hint. destruct (String.eqb_spec (Urgency r) "") as [->|Hne]; [reflexivity|].
  destruct (String.eqb (Urgency r) "low"); [reflexivity|].
  destruct (String.eqb (Urgency r) "normal") eqn:En; [|reflexivity].
  apply String.eqb_eq in En. rewrite En. reflexivity.
Qed.

(** [buildCriteria] succeeds exactly when every entry builds, and then
    returns one criterion per entry, in order. *)
Theorem buildCriteria_all_or_nothing (raw : list criterionRaw) (cs : list (Criterion regex)) :
  buildCriteria regex compile raw = inr cs <->
  Forall2 (fun r c => buildCriterion regex compile r = inr c) raw cs.
Proof. apply buildCriteria_inr. Qed.

(** [buildCriteria] fails exactly when some entry has a name regex that
    does not compile; the error names the first such entry, all entries
    before it being valid. *)
Theorem buildCriteria_first_invalid (raw : list criterionRaw) (e : string) :
  buildCriteria regex compile raw = inl e <->
  exists pre r post, raw = (pre ++ r :: post)%list /\ Forall (regex_ok regex compile) pre /\
    NameRegex (RawMatch r) <> "" /\ compile ("(?i)" +:+ NameRegex (RawMatch r)) = None /\
    e = RawName r.
Proof. apply buildCriteria_inl. Qed.

End CriteriaFacts.


(** Witnesses, with a regex engine that rejects the pattern ["(?i)["] and
    compares names literally. *)
Lemma formatNotification_default_witness :
  formatNotification string
    (mk_Criterion string "shell" (Some "(?i)bash") [] "" "New process" "PID {pid}: {name}" "normal")
    42 (mk_procInfo (Some "bash") ["bash"] "root") = ("New process", "PID 42: bash")%string.
Proof.
  etransitivity.
  - apply (formatNotification_default string
             (fun s => if String.eqb s "(?i)[" then None else Some s)
             (mk_criterionRaw "shell" (mk_criterionMatch "bash" [] "") "" "" "")
             _ 42 (mk_procInfo (Some "bash") ["bash"] "root") "bash");
      reflexivity.
  - vm_compute. reflexivity.
Defined.

Lemma notify_process_unreadable_witness :
  notify_process string (fun re n => String.eqb re ("(?i)" +:+ n))
    [mk_Criterion string "any" None [] "" "t" "b" "normal"] 7
    (mk_procInfo None ["sleep"; "10"] "root") = [].
Proof. apply (notify_process_unreadable string _ _ 7 _). reflexivity. Defined.

Lemma matches_unconstrained_witness :
  matches string (fun re n => String.eqb re ("(?i)" +:+ n))
    (mk_Criterion string "any" None [] "" "New process" "PID {pid}: {name}" "normal")
    (mk_procInfo (Some "sleep") ["sleep"; "10"] "root") = true.
Proof.
  apply (matches_unconstrained string (fun s => if String.eqb s "(?i)[" then None else Some s)
           _ (mk_criterionRaw "any" (mk_criterionMatch "" [] "") "" "" "")
           _ (mk_procInfo (Some "sleep") ["sleep"; "10"] "root"));
    reflexivity.
Defined.

Lemma matches_term_spans_args_witness :
  matches string (fun re n => String.eqb re ("(?i)" +:+ n))
    (mk_Criterion string "py" None ["-m http.server"] "" "t" "b" "normal")
    (mk_procInfo (Some "python3") ["python3"; "-m"; "http.server"; "8000"] "alice") = true.
Proof.
  apply (matches_term_spans_args string _ _ _ "python3" "-m" "http.server" ["python3"] ["8000"]);
    reflexivity.
Defined.

Lemma checkNew_disj_union_witness :
  ({[1]} : gset Z) ## {[2]} /\
  checkNew string (fun _ _ => true) [mk_Criterion string "any" None [] "" "t" "b" "low"]
    (fun _ => Some (mk_procInfo (Some "x") [] "u")) ({[1]} ∪ {[2]}) ≡ₚ
  checkNew string (fun _ _ => true) [mk_Criterion string "any" None [] "" "t" "b" "low"]
    (fun _ => Some (mk_procInfo (Some "x") [] "u")) {[1]} ++
  checkNew string (fun _ _ => true) [mk_Criterion string "any" None [] "" "t" "b" "low"]
    (fun _ => Some (mk_procInfo (Some "x") [] "u")) {[2]}.
Proof.
  split; [set_solver|]. apply checkNew_disj_union. set_solver.
Defined.

Lemma reloadConfig_invalid_entry_witness :
  reloadConfig string (fun s => if String.eqb s "(?i)[" then None else Some s)
    (fun _ => Some [mk_criterionRaw "ok" (mk_criterionMatch "bash" [] "") "" "" "";
                    mk_criterionRaw "bad" (mk_criterionMatch "[" [] "") "" "" ""])
    [] (Some "config") = [].
Proof.
  apply (reloadConfig_invalid_entry string _ _ [] "config"
           [mk_criterionRaw "ok" (mk_criterionMatch "bash" [] "") "" "" "";
            mk_criterionRaw "bad" (mk_criterionMatch "[" [] "") "" "" ""]
           (mk_criterionRaw "bad" (mk_criterionMatch "[" [] "") "" "" ""));
    [reflexivity| right; left; reflexivity | discriminate | reflexivity].
Defined.

Lemma reloadConfig_success_names_witness :
  map (Name string)
    (reloadConfig string (fun s => if String.eqb s "(?i)[" then None else Some s)
       (fun _ => Some [mk_criterionRaw "ok" (mk_criterionMatch "bash" [] "") "" "" "";
                       mk_criterionRaw "any" (mk_criterionMatch "" [] "") "" "" ""])
       [] (Some "config")) = ["ok"; "any"]%string.
Proof.
  apply (reloadConfig_success_names string _ _ [] "config"
           [mk_criterionRaw "ok" (mk_criterionMatch "bash" [] "") "" "" "";
            mk_criterionRaw "any" (mk_criterionMatch "" [] "") "" "" ""]);
    [reflexivity|].
  constructor; [unfold regex_ok; simpl; right; discriminate|].
  constructor; [left; reflexivity|]. constructor.
Defined.

Lemma urgency_hint_built_witness :
  urgency_hint "critical" = 2.
Proof.
  apply (urgency_hint_built string (fun s => if String.eqb s "(?i)[" then None else Some s)
           (mk_criterionRaw "x" (mk_criterionMatch "" [] "") "" "" "critical")
           (mk_Criterion string "x" None [] "" "New process" "PID {pid}: {name}" "critical")).
  reflexivity.
Defined.

(* ================================================================== *)
(** * checkNew is never called on an empty set *)

Lemma step_checkNew_nonempty (m : mode) (o : obs) (m' : mode) (acts : list action) :
  step m o = Some (m', acts) ->
  Forall (fun a => match a with ACheckNew s => s <> ∅ | _ => True end) acts.
Proof.
  destruct m, o; simpl; intros H; try discriminate;
    [destruct (listen_setup _ _ _)|..]; injection H as <- <-; try solve [repeat constructor].
  - constructor; [|constructor]. set_solver.
  - match goal with |- context [decide ?P] => destruct (decide P) as [Hlt|] end; [|constructor].
    constructor; [|constructor]. intros He. rewrite He, size_empty in Hlt. lia.
Qed.

(** Neither the netlink path nor the poller hands [checkNew] an empty set
    of pids: each delivery is a single pid, and a poll cycle calls it only
    when [len(newPIDs) > 0]. *)
Theorem run_checkNew_nonempty (m : mode) (os : list obs) (tr : list (mode * list action))
  (H : run_trace m os = Some tr) :
  Forall (fun x => Forall (fun a => match a with ACheckNew s => s <> ∅ | _ => True end) (snd x)) tr.
Proof.
  revert m tr H; induction os as [|o os IH]; intros m tr H; simpl in H.
  - injection H as <-. constructor.
  - destruct (step m o) as [[m' acts]|] eqn:Es; [|discriminate].
    destruct (run_trace m' os) as [tr'|] eqn:Et; [|discriminate].
    injection H as <-. constructor; [exact (step_checkNew_nonempty _ _ _ _ Es)|].
    exact (IH _ _ Et).
Qed.

Lemma run_checkNew_nonempty_witness :
  Forall (fun x => Forall (fun a => match a with ACheckNew s => s <> ∅ | _ => True end) (snd x))
    [(PollingStarting, [AListen; AStartPolling]); (PollingActive {[1; 2]}, []);
     (PollingActive {[1; 2; 5]}, [ACheckNew {[5]}])].
Proof.
  apply (run_checkNew_nonempty Starting
           [OConnect (Some 1) None None; OSnapshot {[1; 2]}; OSnapshot {[1; 2; 5]}]).
  vm_compute. reflexivity.
Defined.
